(** * Perfect Shot: the generation client and the slot orchestrator

    A shallow embedding of the image-generation service
    (src/components/PolaroidCard.tsx, second document: the Gemini service
    with [dataUrlToGeminiPart], [processGeminiResponse],
    [callGeminiWithRetry] and [generateVibeBasedImage]) and of the
    application component that drives it (src/unnamed/part_000: the
    handlers of [AppContent], among them [handleGenerateClick] and
    [handleRegenerateSlot]), with the card of a slot
    (src/unnamed/part_001), the layout of the album
    (src/unnamed/part_002) and the forms beside the page.

    Conventions of the embedding.
    - A JavaScript string is a [string]; each [ascii] stands for one code
      unit in the range 0..255. The line terminators and white space of
      the language that fall in this range are listed in
      [isLineTerminator] and [isWhiteSpace].
    - A thrown value is a [Thrown]; a call that may throw returns a
      [Completion].
    - Network calls and timers are recorded as a list of [Event]s, in the
      order in which the code performs them. Console output is not
      recorded.
    - An [async] handler is split at its suspension points: the part that
      runs when the handler is called, and the part that runs when the
      awaited promise settles. The promises that have not settled are
      part of the state: nothing in the source cancels them.
    - An array is a list of [Element]s, which tells the holes of a sparse
      array from the elements that are [undefined]. *)

From Stdlib Require Import ZArith Lia Bool Ascii String.
From stdpp Require Import base list strings.
From stdpp Require Import pretty.
From Stdlib Require Floats.PrimFloat.

Local Open Scope string_scope.
Local Open Scope list_scope.

(** ** JavaScript strings *)

Module Js.

Definition dq : ascii := ascii_of_nat 34.
Definition newline : ascii := ascii_of_nat 10.

(** [quoted s] is [s] between two double quotes. *)
Definition quoted (s : string) : string := String dq (s +:+ String dq "").

Definition code (c : ascii) : nat := nat_of_ascii c.

Definition inRange (lo hi : nat) (c : ascii) : bool :=
  (lo <=? code c)%nat && (code c <=? hi)%nat.

(** The class [\w] of a regular expression without flags: [A-Za-z0-9_]. *)
Definition isWordChar (c : ascii) : bool :=
  inRange 65 90 c || inRange 97 122 c || inRange 48 57 c || (code c =? 95)%nat.

(** Line terminators below 256: LF and CR. [.] matches anything else. *)
Definition isLineTerminator (c : ascii) : bool :=
  (code c =? 10)%nat || (code c =? 13)%nat.

(** White space removed by [String.prototype.trim], below 256:
    TAB, LF, VT, FF, CR, SP and NBSP. *)
Definition isWhiteSpace (c : ascii) : bool :=
  inRange 9 13 c || (code c =? 32)%nat || (code c =? 160)%nat.

Fixpoint allChars (p : ascii -> bool) (s : string) : bool :=
  match s with
  | EmptyString => true
  | String c s' => p c && allChars p s'
  end.

Fixpoint startsWith (s p : string) {struct p} : bool :=
  match p, s with
  | EmptyString, _ => true
  | String a p', String b s' => if Ascii.eqb a b then startsWith s' p' else false
  | String _ _, EmptyString => false
  end.

(** [s.includes(sub)] *)
Fixpoint includes (s sub : string) : bool :=
  startsWith s sub ||
  match s with
  | EmptyString => false
  | String _ s' => includes s' sub
  end.

(** [stripPrefix p s] is the rest of [s] after the literal [p]. *)
Fixpoint stripPrefix (p s : string) {struct p} : option string :=
  match p, s with
  | EmptyString, _ => Some s
  | String a p', String b s' => if Ascii.eqb a b then stripPrefix p' s' else None
  | String _ _, EmptyString => None
  end.

(** The longest prefix of characters in class [p], and what follows it. *)
Fixpoint span (p : ascii -> bool) (s : string) : string * string :=
  match s with
  | EmptyString => (EmptyString, EmptyString)
  | String c s' =>
      if p c then let '(w, r) := span p s' in (String c w, r)
      else (EmptyString, s)
  end.

Fixpoint dropWhile (p : ascii -> bool) (l : list ascii) : list ascii :=
  match l with
  | [] => []
  | c :: l' => if p c then dropWhile p l' else l
  end.

(** [s.trim()] *)
Definition trim (s : string) : string :=
  string_of_list_ascii
    (rev (dropWhile isWhiteSpace (rev (dropWhile isWhiteSpace (list_ascii_of_string s))))).

(** A template literal prints [undefined] for a missing value. *)
Definition template (v : option string) : string := default "undefined" v.

End Js.

(** ** The generation service (services/geminiService) *)

Module GeminiService.
Import Js.

(** What a [throw] carries: an [Error] object with its message, or any
    other value, given by what [JSON.stringify] makes of it ([None] when
    it yields [undefined]). *)
Inductive Thrown : Type :=
| ErrorObj (message : string)
| NonError (json : option string).

Inductive Completion (A : Type) : Type :=
| Return (a : A)
| Throw (e : Thrown).
Arguments Return {A} a.
Arguments Throw {A} e.

(** Sequencing: a [Throw] skips what follows. *)
#[export] Instance Completion_bind : MBind Completion :=
  fun A B k m =>
    match m with
    | Return a => k a
    | Throw e => Throw e
    end.

(** The types of the SDK that the service uses. Optional fields are
    options. [responseText] is the [text] accessor of a response. *)
Record Blob : Type := { mimeType : option string; data : option string }.
Record Part : Type := { inlineData : option Blob; text : option string }.
Record Content : Type := { parts : option (list Part) }.
Record Candidate : Type := { content : option Content }.
Record GenerateContentResponse : Type :=
  { candidates : option (list Candidate); responseText : option string }.

Inductive Modality : Type := IMAGE | TEXT.

Record GenerateContentParameters : Type :=
  { model : string; contents : list Part; responseModalities : list Modality }.

(** The external API: what the call made in attempt [n] with a given
    request settles to. *)
Definition Upstream : Type :=
  Z -> GenerateContentParameters -> Completion GenerateContentResponse.

Inductive Event : Type :=
| Call (req : GenerateContentParameters)
| Sleep (ms : Z).

(** [error instanceof Error ? error.message : JSON.stringify(error)] *)
Definition errorMessageOf (error : Thrown) : option string :=
  match error with
  | ErrorObj message => Some message
  | NonError json => json
  end.

(** Calling [includes] on [undefined] throws a [TypeError]; its text is
    the engine's. *)
Definition typeErrorMessage : string :=
  "Cannot read properties of undefined (reading 'includes')".

(** *** dataUrlToGeminiPart *)

(** The match of [dataUrl] against the pattern of the source: the
    literal [data:], a first group made of [image/] and one or more word
    characters, the literal [;base64,], and a second group of any number
    of characters other than line terminators, up to the end of the
    string. The result is the two groups. A word character cannot be
    [;], so the first group is the longest run of word characters. *)
Definition matchDataUrl (dataUrl : string) : option (string * string) :=
  r1 ← stripPrefix "data:" dataUrl;
  r2 ← stripPrefix "image/" r1;
  let '(w, r3) := span isWordChar r2 in
  if decide (w = "") then None
  else
    base64Data ← stripPrefix ";base64," r3;
    if allChars (fun c => negb (isLineTerminator c)) base64Data
    then Some ("image/" +:+ w, base64Data)
    else None.

Definition invalidDataUrlMessage : string :=
  "Invalid image data URL format. Expected 'data:image/...;base64,...'".

Definition dataUrlToGeminiPart (dataUrl : string) : Completion Part :=
  match matchDataUrl dataUrl with
  | None => Throw (ErrorObj invalidDataUrlMessage)
  | Some (mimeType, base64Data) =>
      Return {| inlineData := Some {| mimeType := Some mimeType; data := Some base64Data |};
                text := None |}
  end.

(** *** processGeminiResponse *)

(** [response.candidates?.[0]?.content?.parts] *)
Definition firstCandidateParts (response : GenerateContentResponse) : option (list Part) :=
  cs ← candidates response; c ← head cs; ct ← content c; parts ct.

Definition hasInlineData (part : Part) : bool :=
  match inlineData part with Some _ => true | None => false end.

Definition textInsteadPrefix : string :=
  "The AI model responded with text instead of an image: ".

(** [parts?.find(part => part.inlineData)] *)
Definition imagePartOf (response : GenerateContentResponse) : option Part :=
  ps ← firstCandidateParts response; List.find hasInlineData ps.

(** [textResponse || 'No text response received.'] *)
Definition shownText (textResponse : option string) : string :=
  match textResponse with
  | None | Some "" => "No text response received."
  | Some t => t
  end.

Definition processGeminiResponse (response : GenerateContentResponse) : Completion string :=
  let imagePartFromResponse := imagePartOf response in
  match imagePartFromResponse ≫= inlineData with
  | Some blob =>
      Return ("data:" +:+ template (mimeType blob) +:+ ";base64," +:+ template (data blob))
  | None =>
      let textResponse := responseText response in
      Throw (ErrorObj (textInsteadPrefix +:+ quoted (shownText textResponse)))
  end.

(** *** callGeminiWithRetry *)

Definition maxRetries : Z := 3.
Definition initialDelay : Z := 1000.

Definition isRetriableError (errorMessage : string) : bool :=
  includes errorMessage (quoted "code" +:+ ":500")
  || includes errorMessage "INTERNAL"
  || includes errorMessage "503".

Definition request (parts : list Part) : GenerateContentParameters :=
  {| model := "gemini-2.5-flash-image-preview";
     contents := parts;
     responseModalities := [IMAGE; TEXT] |}.

Definition exhaustedMessage : string := "Gemini API call failed after all retries.".

(** The [for] loop, over the values that [attempt] still has to take.
    With no value left the loop exits to the final [throw]. *)
Fixpoint retryLoop (ai : Upstream) (parts : list Part) (attempts : list Z)
  : list Event * Completion GenerateContentResponse :=
  match attempts with
  | [] => ([], Throw (ErrorObj exhaustedMessage))
  | attempt :: rest =>
      match ai attempt (request parts) with
      | Return response => ([Call (request parts)], Return response)
      | Throw error =>
          match errorMessageOf error with
          | None => ([Call (request parts)], Throw (ErrorObj typeErrorMessage))
          | Some errorMessage =>
              if isRetriableError errorMessage && (attempt <? maxRetries)%Z then
                let delay := (initialDelay * 2 ^ (attempt - 1))%Z in
                let '(evs, r) := retryLoop ai parts rest in
                (Call (request parts) :: Sleep delay :: evs, r)
              else ([Call (request parts)], Throw error)
          end
      end
  end.

Definition callGeminiWithRetry (ai : Upstream) (parts : list Part)
  : list Event * Completion GenerateContentResponse :=
  retryLoop ai parts (seqZ 1 maxRetries).

(** *** generateVibeBasedImage *)

Definition nl : string := String newline "".

Definition basePrompt : string :=
  "You are provided with several photos of the same person to understand their appearance from multiple angles. You are also provided with several "
  +:+ quoted "vibe" +:+ " inspiration images." +:+ nl +:+
  "Your task is to create a new, photorealistic image of the person from the main photos, but imbued with the aesthetic, color palette, lighting, composition, and overall vibe from the inspiration images."
  +:+ nl +:+ nl +:+
  "Key instructions:" +:+ nl +:+
  "1. Accurately represent the person from the main photos. They must be clearly recognizable."
  +:+ nl +:+
  "2. Perfectly blend the style of the inspiration photos with the person." +:+ nl +:+
  "3. Choose the best pose or angle from the provided main photos as a base for the new image, but you can subtly adjust it to better fit the new style."
  +:+ nl +:+
  "4. The final output must be only the image.".

Definition userPromptIntro : string :=
  nl +:+ nl +:+ "Additionally, follow these user-provided instructions carefully: ".

Definition textPromptOf (userPrompt : string) : string :=
  if negb (bool_decide (userPrompt = "")) && negb (bool_decide (trim userPrompt = ""))
  then basePrompt +:+ userPromptIntro +:+ trim userPrompt
  else basePrompt.

(** [urls.map(dataUrlToGeminiPart)]: the first malformed element throws. *)
Fixpoint mapDataUrls (urls : list string) : Completion (list Part) :=
  match urls with
  | [] => Return []
  | u :: us => p ← dataUrlToGeminiPart u; ps ← mapDataUrls us; Return (p :: ps)
  end.

Definition allPartsOf (mainImageParts inspirationImageParts : list Part) (textPrompt : string)
  : list Part :=
  mainImageParts ++ inspirationImageParts ++ [{| inlineData := None; text := Some textPrompt |}].

(** The body of the [try]. *)
Definition tryGenerate (ai : Upstream) (mainImageDataUrls inspirationDataUrls : list string)
    (textPrompt : string) : list Event * Completion string :=
  match mapDataUrls mainImageDataUrls with
  | Throw e => ([], Throw e)
  | Return mainImageParts =>
      match mapDataUrls inspirationDataUrls with
      | Throw e => ([], Throw e)
      | Return inspirationImageParts =>
          let allParts := allPartsOf mainImageParts inspirationImageParts textPrompt in
          let '(evs, r) := callGeminiWithRetry ai allParts in
          (evs, response ← r; processGeminiResponse response)
      end
  end.

(** The [catch]: what is thrown for a caught [error]. *)
Definition vibeMessage : string :=
  "The model couldn't generate an image with this vibe. It might be too complex.".

Definition textMarker : string := "The AI model responded with text".

Definition failedPrefix : string := "The AI model failed to generate an image. Details: ".

Definition catchGenerate (error : Thrown) : Thrown :=
  match errorMessageOf error with
  | None => ErrorObj typeErrorMessage
  | Some errorMessage =>
      if includes errorMessage textMarker
      then ErrorObj vibeMessage
      else ErrorObj (failedPrefix +:+ errorMessage)
  end.

Definition generateVibeBasedImage (ai : Upstream)
    (mainImageDataUrls inspirationDataUrls : list string) (userPrompt : string)
  : list Event * Completion string :=
  let textPrompt := textPromptOf userPrompt in
  match tryGenerate ai mainImageDataUrls inspirationDataUrls textPrompt with
  | (evs, Return url) => (evs, Return url)
  | (evs, Throw error) => (evs, Throw (catchGenerate error))
  end.

(** *** The format of an embedded image, as the specification words it *)

(** An image asset: a media type tag and an encoded payload. The
    component holds it as the data URL [toDataUrl]. *)
Record ImageAsset : Type := { mediaType : string; payload : string }.

Definition toDataUrl (a : ImageAsset) : string :=
  "data:" +:+ mediaType a +:+ ";base64," +:+ payload a.

(** The expected embedded-data format [data:image/...;base64,...]: the
    media type is [image/] and a subtype made of one or more letters,
    digits and underscores; the payload runs to the end, on one line. *)
Definition EmbeddedDataFormat (dataUrl : string) (a : ImageAsset) : Prop :=
  (∃ subtype, subtype ≠ "" ∧ allChars isWordChar subtype = true
              ∧ mediaType a = "image/" +:+ subtype)
  ∧ allChars (fun c => negb (isLineTerminator c)) (payload a) = true
  ∧ dataUrl = toDataUrl a.

(** The media types that the encoder accepts. *)
Definition acceptedMediaType (m : string) : bool :=
  match stripPrefix "image/" m with
  | Some subtype => negb (bool_decide (subtype = "")) && allChars isWordChar subtype
  | None => false
  end.

(** The base64 alphabet, with its padding character. *)
Definition isBase64Char (c : ascii) : bool :=
  inRange 65 90 c || inRange 97 122 c || inRange 48 57 c
  || (code c =? 43)%nat || (code c =? 47)%nat || (code c =? 61)%nat.

Definition isBase64 (s : string) : bool := allChars isBase64Char s.

(** The inline-data part that carries an asset. *)
Definition inlinePart (a : ImageAsset) : Part :=
  {| inlineData := Some {| mimeType := Some (mediaType a); data := Some (payload a) |};
     text := None |}.

(** The payload that the client builds for given assets and prompt: the
    parts of the subjects, then of the styles, then the text; and the
    request that carries it. *)
Definition payloadOf (userPrompt : string) (subjects styles : list ImageAsset) : list Part :=
  allPartsOf (inlinePart <$> subjects) (inlinePart <$> styles) (textPromptOf userPrompt).

Definition requestOf (userPrompt : string) (subjects styles : list ImageAsset)
  : GenerateContentParameters :=
  request (payloadOf userPrompt subjects styles).

(** *** Reading a run of the client *)

Definition isCall (e : Event) : bool :=
  match e with Call _ => true | Sleep _ => false end.

(** The upstream attempts of a run, and the delays waited. *)
Definition attempts (evs : list Event) : nat := length (List.filter isCall evs).

Definition delays (evs : list Event) : list Z :=
  omap (fun e => match e with Sleep ms => Some ms | Call _ => None end) evs.

(** Every delay of a run is followed at once by an upstream call. *)
Fixpoint delaysPrecedeCalls (evs : list Event) : Prop :=
  match evs with
  | [] => True
  | Call _ :: rest => delaysPrecedeCalls rest
  | Sleep _ :: rest =>
      match rest with
      | Call _ :: _ => delaysPrecedeCalls rest
      | _ => False
      end
  end.

(** An upstream failure that the retry loop classifies as transient. *)
Definition isTransient (o : Completion GenerateContentResponse) : Prop :=
  ∃ error errorMessage,
    o = Throw error ∧ errorMessageOf error = Some errorMessage
    ∧ isRetriableError errorMessage = true.

(** An upstream failure that it does not classify as transient. *)
Definition isPermanent (o : Completion GenerateContentResponse) : Prop :=
  ∃ error, o = Throw error ∧
    match errorMessageOf error with
    | Some errorMessage => isRetriableError errorMessage = false
    | None => True
    end.

End GeminiService.

(** ** The application component (App): generation slots *)

Module App.
Import GeminiService.

Inductive ImageStatus : Type := StPending | StDone | StError.

Record GeneratedImage : Type :=
  { status : ImageStatus; url : option string; error : option string }.

#[export] Instance ImageStatus_eq_dec : EqDecision ImageStatus.
Proof. solve_decision. Defined.

#[export] Instance GeneratedImage_eq_dec : EqDecision GeneratedImage.
Proof. solve_decision. Defined.

Inductive AppState : Type := Idle | PhotosUploaded | Generating | ResultsShown.

#[export] Instance AppState_eq_dec : EqDecision AppState.
Proof. solve_decision. Defined.

(** [{ status: 'pending' }] *)
Definition pendingImage : GeneratedImage :=
  {| status := StPending; url := None; error := None |}.

(** An array is a list of elements. An index below the length that was
    never assigned is a hole: it reads [undefined], and [forEach] and
    [map] pass over it. An element can also be [undefined] itself. *)
Inductive Element (A : Type) : Type :=
| Hole
| Undefined
| Value (v : A).
Arguments Hole {A}.
Arguments Undefined {A}.
Arguments Value {A} v.

(** [[...l]]: the copy has no holes, it has [undefined] in their place. *)
Definition spread {A : Type} (l : list (Element A)) : list (Element A) :=
  (fun e => match e with Hole => Undefined | _ => e end) <$> l.

(** [arraySet l i v] is the copy [[...l]] after the assignment at index
    [i]: past the end, the array grows, with holes in between. *)
Definition arraySet {A : Type} (l : list (Element A)) (i : nat) (v : A) : list (Element A) :=
  if decide (i < length l) then <[i := Value v]> (spread l)
  else spread l ++ replicate (i - length l) Hole ++ [Value v].

(** [l[i]], [undefined] being [None]. *)
Definition arrayGet {A : Type} (l : list (Element A)) (i : nat) : option A :=
  match l !! i with
  | Some (Value v) => Some v
  | _ => None
  end.

(** The arguments of a call to [generateVibeBasedImage]. *)
Record GenerateCall : Type :=
  { mainImageDataUrls : list string;
    inspirationDataUrls : list string;
    prompt : string }.

(** The state of the component, and of the promises it has created.
    [batches] has one entry for each call of [handleGenerateClick] that
    went past its guard, oldest first: the indices [i] for which
    [generationPromises[i]] of that call has not settled yet; the entry
    is empty once the [Promise.all] of that call has resolved.
    [regenerating] lists, for each call of [handleRegenerateSlot] that is
    suspended at its [await], the index it was called with; [issued]
    records the calls made to [generateVibeBasedImage], oldest first. *)
Record State : Type :=
  { uploadedImages : list string;
    inspirationImages : list string;
    userPrompt : string;
    generatedImages : list (Element GeneratedImage);
    appState : AppState;
    generationCount : nat;
    batches : list (list nat);
    regenerating : list nat;
    issued : list GenerateCall }.

Definition setGeneratedImages
    (f : list (Element GeneratedImage) -> list (Element GeneratedImage))
    (s : State) : State :=
  {| uploadedImages := uploadedImages s; inspirationImages := inspirationImages s;
     userPrompt := userPrompt s; generatedImages := f (generatedImages s);
     appState := appState s; generationCount := generationCount s;
     batches := batches s; regenerating := regenerating s; issued := issued s |}.

Definition setAppState (a : AppState) (s : State) : State :=
  {| uploadedImages := uploadedImages s; inspirationImages := inspirationImages s;
     userPrompt := userPrompt s; generatedImages := generatedImages s;
     appState := a; generationCount := generationCount s;
     batches := batches s; regenerating := regenerating s; issued := issued s |}.

Definition setBatches (b : list (list nat)) (s : State) : State :=
  {| uploadedImages := uploadedImages s; inspirationImages := inspirationImages s;
     userPrompt := userPrompt s; generatedImages := generatedImages s;
     appState := appState s; generationCount := generationCount s;
     batches := b; regenerating := regenerating s; issued := issued s |}.

Definition setRegenerating (r : list nat) (s : State) : State :=
  {| uploadedImages := uploadedImages s; inspirationImages := inspirationImages s;
     userPrompt := userPrompt s; generatedImages := generatedImages s;
     appState := appState s; generationCount := generationCount s;
     batches := batches s; regenerating := r; issued := issued s |}.

Definition issue (cs : list GenerateCall) (s : State) : State :=
  {| uploadedImages := uploadedImages s; inspirationImages := inspirationImages s;
     userPrompt := userPrompt s; generatedImages := generatedImages s;
     appState := appState s; generationCount := generationCount s;
     batches := batches s; regenerating := regenerating s; issued := issued s ++ cs |}.

(** The call that a handler makes, with the images and the prompt of the
    render it belongs to. *)
Definition callOf (view : State) : GenerateCall :=
  {| mainImageDataUrls := uploadedImages view;
     inspirationDataUrls := inspirationImages view;
     prompt := userPrompt view |}.

(** What a settled call of [generateVibeBasedImage] becomes: the [then]
    and [catch] of [handleGenerateClick], the [try] and [catch] of
    [handleRegenerateSlot]. *)
Definition slotResult (r : Completion string) : GeneratedImage :=
  match r with
  | Return resultUrl => {| status := StDone; url := Some resultUrl; error := None |}
  | Throw err =>
      let errorMessage :=
        match err with
        | ErrorObj message => message
        | NonError _ => "An unknown error occurred."
        end in
      {| status := StError; url := None; error := Some errorMessage |}
  end.

Fixpoint removeFirst (i : nat) (l : list nat) : list nat :=
  match l with
  | [] => []
  | j :: l' => if decide (i = j) then l' else j :: removeFirst i l'
  end.

(** The calls of the batch number [b] that have not settled, and the
    number that the next batch will have. *)
Definition callsOf (b : nat) (s : State) : list nat := default [] (batches s !! b).


(** [handleGenerateClick], up to its [await]. The handler reads the
    state of the render it belongs to ([view]); its updates apply to the
    current state. Nothing is done about the calls that are in flight.
    With no promise to wait for, [Promise.all] resolves at once. *)
Definition handleGenerateClick (view : State) (s : State) : State :=
  if bool_decide (length (uploadedImages view) = 0)
     || bool_decide (length (inspirationImages view) = 0)
  then s
  else
    let n := generationCount view in
    let s1 := setAppState Generating s in
    let s2 := setGeneratedImages (fun _ => replicate n (Value pendingImage)) s1 in
    let s3 := setBatches (batches s ++ [seq 0 n]) (issue (replicate n (callOf view)) s2) in
    if decide (n = 0) then setAppState ResultsShown s3 else s3.

(** [generationPromises[i]] of the batch number [b] settles: its [then]
    callback writes into the array that is current then; when it was the
    last one of its batch, the [Promise.all] of that batch resolves and
    its handler resumes after the [await]. *)
Definition batchSettled (b i : nat) (r : Completion string) (s : State) : State :=
  let s1 := setGeneratedImages (fun prev => arraySet prev i (slotResult r)) s in
  let s2 := setBatches (<[b := removeFirst i (callsOf b s)]> (batches s)) s1 in
  if decide (removeFirst i (callsOf b s) = []) then setAppState ResultsShown s2 else s2.

(** [generatedImages[index]?.status === 'pending'] *)
Definition isPendingAt (l : list (Element GeneratedImage)) (index : nat) : bool :=
  bool_decide (status <$> arrayGet l index = Some StPending).

(** [handleRegenerateSlot], up to its [await]. *)
Definition handleRegenerateSlot (view : State) (index : nat) (s : State) : State :=
  if bool_decide (length (uploadedImages view) = 0)
     || bool_decide (length (inspirationImages view) = 0)
  then s
  else if isPendingAt (generatedImages view) index then s
  else
    let s1 := setGeneratedImages (fun prev => arraySet prev index pendingImage) s in
    setRegenerating (regenerating s ++ [index]) (issue [callOf view] s1).

(** When [handleRegenerateSlot] does not return early. *)
Definition regenerates (view : State) (index : nat) : Prop :=
  uploadedImages view ≠ [] ∧ inspirationImages view ≠ []
  ∧ isPendingAt (generatedImages view) index = false.

(** [handleRegenerateSlot], from its [await] on. *)
Definition regenerateSettled (index : nat) (r : Completion string) (s : State) : State :=
  let s1 := setGeneratedImages (fun prev => arraySet prev index (slotResult r)) s in
  setRegenerating (removeFirst index (regenerating s)) s1.

(** What can happen to the slots: a click on the generate button, a
    click on the regenerate button of the card of a slot, and the
    settling of a call in flight, of any batch. These are some of the
    events of the page ([Page.Event]). *)
Inductive Event : Type :=
| GenerateClick
| BatchSettled (b i : nat) (r : Completion string)
| RegenerateClick (index : nat)
| RegenerateSettled (index : nat) (r : Completion string).

(** The generate button is rendered in [PhotosUploaded]; the cards, one
    per element of [generatedImages], in [Generating] and [ResultsShown].
    A render follows every update, so a handler that runs on a click
    belongs to the render of the current state. The callbacks of the
    promises run whatever the state is. *)
Definition step (ev : Event) (s : State) : option State :=
  match ev with
  | GenerateClick =>
      if decide (appState s = PhotosUploaded) then Some (handleGenerateClick s s) else None
  | BatchSettled b i r =>
      if decide (i ∈ callsOf b s) then Some (batchSettled b i r s) else None
  | RegenerateClick index =>
      if decide ((appState s = Generating ∨ appState s = ResultsShown)
                 ∧ index < length (generatedImages s))
      then Some (handleRegenerateSlot s index s) else None
  | RegenerateSettled index r =>
      if decide (index ∈ regenerating s) then Some (regenerateSettled index r s) else None
  end.

Definition isTerminal (g : option GeneratedImage) : Prop :=
  ∃ img, g = Some img ∧ (status img = StDone ∨ status img = StError).

Definition isPending (g : option GeneratedImage) : Prop :=
  ∃ img, g = Some img ∧ status img = StPending.

(** The slot at index [j]. *)
Definition slot (s : State) (j : nat) : option GeneratedImage :=
  arrayGet (generatedImages s) j.

(** The calls in flight, by the index of the slot that each will write. *)
Definition writers (s : State) : list nat := concat (batches s) ++ regenerating s.

(** A component with photos of both kinds, about to generate, and with
    no call in flight. *)
Definition ready (s : State) : Prop :=
  appState s = PhotosUploaded ∧ uploadedImages s ≠ [] ∧ inspirationImages s ≠ []
  ∧ writers s = [].

(** Every pending slot has a call in flight that will write it. *)
Definition covered (s : State) : Prop :=
  ∀ j, isPending (slot s j) → j ∈ writers s.

(** A collection of [count] slots that only its own calls write: every
    slot is pending, done or error, and the pending slots are exactly
    those with a call in flight, one call each. *)
Record Inv (count : nat) (s : State) : Prop :=
  { inv_length : length (generatedImages s) = count;
    inv_slots : ∀ j, j < count → isPending (slot s j) ∨ isTerminal (slot s j);
    inv_nodup : NoDup (writers s);
    inv_writer : ∀ j, j ∈ writers s ↔ j < count ∧ isPending (slot s j) }.

End App.

(** ** Concrete inputs *)

Module Examples.
Import GeminiService App.

Definition pngUrl : string := "data:image/png;base64,QUJD".
Definition jpegUrl : string := "data:image/jpeg;base64,REVG".
Definition pngAsset : ImageAsset := {| mediaType := "image/png"; payload := "QUJD" |}.
Definition jpegAsset : ImageAsset := {| mediaType := "image/jpeg"; payload := "REVG" |}.

Definition generatedBlob : Blob := {| mimeType := Some "image/png"; data := Some "R0VO" |}.
Definition generatedPart : Part := {| inlineData := Some generatedBlob; text := None |}.
Definition captionPart : Part := {| inlineData := None; text := Some "Here it is." |}.

Definition responseOf (ps : list Part) (t : option string) : GenerateContentResponse :=
  {| candidates := Some [ {| content := Some {| parts := Some ps |} |} ];
     responseText := t |}.

(** A response with a caption and an image, and one with text only. *)
Definition imageResponse : GenerateContentResponse :=
  responseOf [captionPart; generatedPart] (Some "Here it is.").
Definition textResponse : GenerateContentResponse :=
  responseOf [{| inlineData := None; text := Some "a cat" |}] (Some "a cat").

(** An upstream that fails twice with an internal fault, then answers. *)
Definition flakyUpstream : Upstream :=
  fun attempt _ => if (attempt <? 3)%Z then Throw (ErrorObj "INTERNAL") else Return imageResponse.

(** An upstream that is unavailable. *)
Definition downUpstream : Upstream := fun _ _ => Throw (ErrorObj "503 Service Unavailable").

(** An upstream whose internal fault quotes the phrase that the client
    looks for in its [catch]. *)
Definition echoMessage : string := "INTERNAL: The AI model responded with text".
Definition echoUpstream : Upstream := fun _ _ => Throw (ErrorObj echoMessage).

(** An upstream that refuses the key. *)
Definition deniedUpstream : Upstream := fun _ _ => Throw (ErrorObj "API key not valid").

(** An upstream that answers with text only. *)
Definition textUpstream : Upstream := fun _ _ => Return textResponse.

Definition doneImage : GeneratedImage :=
  {| status := StDone; url := Some "data:image/png;base64,R0VO"; error := None |}.

(** A component that shows two results. *)
Definition shown : State :=
  {| uploadedImages := [pngUrl]; inspirationImages := [jpegUrl]; userPrompt := "";
     generatedImages := [Value doneImage; Value doneImage];
     appState := ResultsShown; generationCount := 2;
     batches := [[]]; regenerating := []; issued := [] |}.

(** The same, with no photo of the subject left. *)
Definition shownWithoutPhotos : State :=
  {| uploadedImages := []; inspirationImages := [jpegUrl]; userPrompt := "";
     generatedImages := [Value doneImage; Value doneImage];
     appState := ResultsShown; generationCount := 2;
     batches := [[]]; regenerating := []; issued := [] |}.

(** A component about to generate [n] images. *)
Definition fresh (n : nat) : State :=
  {| uploadedImages := [pngUrl]; inspirationImages := [jpegUrl]; userPrompt := "";
     generatedImages := []; appState := PhotosUploaded; generationCount := n;
     batches := []; regenerating := []; issued := [] |}.

End Examples.

(** ** Reading the retry loop *)

Module RetryPolicy.
Import Js GeminiService.

(** Whether the [catch] of the loop finds the failure retriable. *)
Definition retriable (o : Completion GenerateContentResponse) : bool :=
  match o with
  | Return _ => false
  | Throw error =>
      match errorMessageOf error with
      | Some errorMessage => isRetriableError errorMessage
      | None => false
      end
  end.

(** What the loop makes of the outcome of the call after which it stops:
    the response, or the error rethrown (the [TypeError] of the [catch]
    when the thrown value has no message). *)
Definition ending (o : Completion GenerateContentResponse)
  : Completion GenerateContentResponse :=
  match o with
  | Return response => Return response
  | Throw error =>
      match errorMessageOf error with
      | Some _ => Throw error
      | None => Throw (ErrorObj typeErrorMessage)
      end
  end.

Definition totalDelay (evs : list Event) : Z := foldr Z.add 0%Z (delays evs).

End RetryPolicy.

(** ** The rest of the application component *)

Module Page.
Import GeminiService App.

Definition MAX_MAIN_IMAGES : Z := 10.
Definition MAX_INSPIRATION_IMAGES : Z := 5.

Inductive ImageType : Type := main | inspiration.

#[export] Instance ImageType_eq_dec : EqDecision ImageType.
Proof. solve_decision. Defined.

Record QueueItem : Type := { dataUrl : string; type : ImageType }.

(** The files that are being read, for a paste or for an upload of a
    kind: what each [FileReader] will end with (its result, or
    nothing), in the order of the files. *)
Inductive ReadTarget : Type := pasted | uploaded (ty : ImageType).

#[export] Instance ReadTarget_eq_dec : EqDecision ReadTarget.
Proof. solve_decision. Defined.

Record Read : Type := { target : ReadTarget; outcomes : list (option string) }.

(** The state of the component beside that of the slots ([core]).
    [completedCrop] tells whether the crop of that name is defined; its
    value only feeds the canvas. The crop shown in the editor is not
    recorded. [reading] lists the sets of files whose [Promise.all] has
    not settled, the latest first. *)
Record Page : Type :=
  { core : State;
    isApiKeySet : bool;
    cropQueue : list QueueItem;
    completedCrop : bool;
    pastedImages : list string;
    isPasteModalOpen : bool;
    isDownloading : bool;
    reading : list Read }.

Definition setCore (f : State -> State) (p : Page) : Page :=
  {| core := f (core p); isApiKeySet := isApiKeySet p; cropQueue := cropQueue p;
     completedCrop := completedCrop p; pastedImages := pastedImages p;
     isPasteModalOpen := isPasteModalOpen p; isDownloading := isDownloading p;
     reading := reading p |}.

Definition setCropQueue (f : list QueueItem -> list QueueItem) (p : Page) : Page :=
  {| core := core p; isApiKeySet := isApiKeySet p; cropQueue := f (cropQueue p);
     completedCrop := completedCrop p; pastedImages := pastedImages p;
     isPasteModalOpen := isPasteModalOpen p; isDownloading := isDownloading p;
     reading := reading p |}.

Definition setCompletedCrop (c : bool) (p : Page) : Page :=
  {| core := core p; isApiKeySet := isApiKeySet p; cropQueue := cropQueue p;
     completedCrop := c; pastedImages := pastedImages p;
     isPasteModalOpen := isPasteModalOpen p; isDownloading := isDownloading p;
     reading := reading p |}.

Definition setPastedImages (l : list string) (p : Page) : Page :=
  {| core := core p; isApiKeySet := isApiKeySet p; cropQueue := cropQueue p;
     completedCrop := completedCrop p; pastedImages := l;
     isPasteModalOpen := isPasteModalOpen p; isDownloading := isDownloading p;
     reading := reading p |}.

Definition setIsPasteModalOpen (b : bool) (p : Page) : Page :=
  {| core := core p; isApiKeySet := isApiKeySet p; cropQueue := cropQueue p;
     completedCrop := completedCrop p; pastedImages := pastedImages p;
     isPasteModalOpen := b; isDownloading := isDownloading p;
     reading := reading p |}.

Definition setReading (f : list Read -> list Read) (p : Page) : Page :=
  {| core := core p; isApiKeySet := isApiKeySet p; cropQueue := cropQueue p;
     completedCrop := completedCrop p; pastedImages := pastedImages p;
     isPasteModalOpen := isPasteModalOpen p; isDownloading := isDownloading p;
     reading := f (reading p) |}.

Definition setUploadedImages (f : list string -> list string) (s : State) : State :=
  {| uploadedImages := f (uploadedImages s); inspirationImages := inspirationImages s;
     userPrompt := userPrompt s; generatedImages := generatedImages s;
     appState := appState s; generationCount := generationCount s;
     batches := batches s; regenerating := regenerating s; issued := issued s |}.

Definition setInspirationImages (f : list string -> list string) (s : State) : State :=
  {| uploadedImages := uploadedImages s; inspirationImages := f (inspirationImages s);
     userPrompt := userPrompt s; generatedImages := generatedImages s;
     appState := appState s; generationCount := generationCount s;
     batches := batches s; regenerating := regenerating s; issued := issued s |}.

Definition setUserPrompt (text : string) (s : State) : State :=
  {| uploadedImages := uploadedImages s; inspirationImages := inspirationImages s;
     userPrompt := text; generatedImages := generatedImages s;
     appState := appState s; generationCount := generationCount s;
     batches := batches s; regenerating := regenerating s; issued := issued s |}.

Definition setGenerationCount (n : nat) (s : State) : State :=
  {| uploadedImages := uploadedImages s; inspirationImages := inspirationImages s;
     userPrompt := userPrompt s; generatedImages := generatedImages s;
     appState := appState s; generationCount := n;
     batches := batches s; regenerating := regenerating s; issued := issued s |}.

(** [l.slice(0, end)]: a negative [end] counts from the end of [l]. *)
Definition slice0 {A : Type} (l : list A) (end_ : Z) : list A :=
  if (end_ <? 0)%Z then take (Z.to_nat (Z.max (Z.of_nat (length l) + end_) 0)) l
  else take (Z.to_nat end_) l.

(** [l.filter((_, i) => p(i))], the first index being [i]. *)
Fixpoint filterIndex {A : Type} (p : nat -> bool) (i : nat) (l : list A) : list A :=
  match l with
  | [] => []
  | x :: l' => if p i then x :: filterIndex p (S i) l' else filterIndex p (S i) l'
  end.

Definition maxImagesOf (ty : ImageType) : Z :=
  match ty with main => MAX_MAIN_IMAGES | inspiration => MAX_INSPIRATION_IMAGES end.

Definition currentCountOf (ty : ImageType) (view : Page) : Z :=
  match ty with
  | main => Z.of_nat (length (uploadedImages (core view)))
  | inspiration => Z.of_nat (length (inspirationImages (core view)))
  end.

Definition itemsOf (ty : ImageType) (urls : list string) : list QueueItem :=
  (fun u => {| dataUrl := u; type := ty |}) <$> urls.

(** [handleAddPastedImages] *)
Definition handleAddPastedImages (ty : ImageType) (view p : Page) : Page :=
  let maxImages := maxImagesOf ty in
  let currentCount := currentCountOf ty view in
  let availableSlots := (maxImages - currentCount)%Z in
  if (availableSlots <=? 0)%Z then p
  else
    let imagesToAdd := slice0 (pastedImages view) availableSlots in
    let newQueueItems := itemsOf ty imagesToAdd in
    setPastedImages []
      (setIsPasteModalOpen false (setCropQueue (fun prev => prev ++ newQueueItems) p)).

(** [handleCancelPaste] *)
Definition handleCancelPaste (p : Page) : Page :=
  setPastedImages [] (setIsPasteModalOpen false p).

(** What a [FileReader] ends with: its result, or nothing. The promise
    of the read resolves with a result that is truthy, and rejects
    otherwise. [Promise.all] resolves with all the results, in order,
    when no read rejects. *)
Definition readPromise (result : option string) : option string :=
  match result with
  | Some (String c u) => Some (String c u)
  | _ => None
  end.

Definition readAll (results : list (option string)) : option (list string) :=
  mapM readPromise results.

(** The [FileReader]s of a handler are started. *)
Definition startRead (rd : Read) (p : Page) : Page := setReading (fun l => rd :: l) p.

(** [handlePaste], up to its [Promise.all], for a paste with image files
    whose reads will end with [results]; [onInput] tells whether the
    focus is in a text field. *)
Definition handlePaste (onInput : bool) (results : list (option string)) (view p : Page)
  : Page :=
  if negb (isApiKeySet view) then p
  else if onInput then p
  else if bool_decide (0 < length results)
       then startRead {| target := pasted; outcomes := results |} p
       else p.

(** ... and the callbacks of its [Promise.all], which run when the reads
    have ended. When a read fails, only the console is written to. *)
Definition pasteSettled (results : list (option string)) (p : Page) : Page :=
  match readAll results with
  | Some dataUrls => setIsPasteModalOpen true (setPastedImages dataUrls p)
  | None => p
  end.

(** [handleImageUpload]: the files that are read, out of those chosen
    (the count of the images held is that of the render of the handler)
    ... *)
Definition filesToRead {A : Type} (ty : ImageType) (files : list A) (view : Page) : list A :=
  slice0 files (maxImagesOf ty - currentCountOf ty view)%Z.

(** ... the handler up to its [Promise.all], for files whose reads
    would end with [results] ... *)
Definition handleImageUpload (ty : ImageType) (results : list (option string)) (view p : Page)
  : Page :=
  startRead {| target := uploaded ty; outcomes := filesToRead ty results view |} p.

(** ... and the callbacks of its [Promise.all], which run when the reads
    have ended, in the state that is current then. *)
Definition uploadSettled (ty : ImageType) (results : list (option string)) (p : Page) : Page :=
  match readAll results with
  | Some urls => setCropQueue (fun prev => prev ++ itemsOf ty urls) p
  | None => p
  end.

(** The [Promise.all] of the reads [rd] settles. *)
Definition readsSettled (rd : Read) (p : Page) : Page :=
  match target rd with
  | pasted => pasteSettled (outcomes rd) p
  | uploaded ty => uploadSettled ty (outcomes rd) p
  end.

(** [removeMainImage], [removeInspirationImage] *)
Definition removeMainImage (index : nat) (p : Page) : Page :=
  setCore (setUploadedImages (filterIndex (fun i => negb (Nat.eqb i index)) 0)) p.

Definition removeInspirationImage (index : nat) (p : Page) : Page :=
  setCore (setInspirationImages (filterIndex (fun i => negb (Nat.eqb i index)) 0)) p.

(** [handleCropConfirm]. [image] tells whether the image of the editor
    is mounted; [canvas] is the data URL that the canvas gives for the
    crop, or nothing when it has no drawing context (the handler then
    stops on the error thrown). *)
Definition handleCropConfirm (image : bool) (canvas : option string) (view p : Page) : Page :=
  if negb image || negb (completedCrop view) || bool_decide (length (cropQueue view) = 0)
  then p
  else
    match canvas, cropQueue view with
    | Some croppedDataUrl, currentItem :: _ =>
        let p1 :=
          match type currentItem with
          | main => setCore (setUploadedImages (fun prev => prev ++ [croppedDataUrl])) p
          | inspiration =>
              setCore (setInspirationImages (fun prev => prev ++ [croppedDataUrl])) p
          end in
        setCompletedCrop false
          (setCropQueue (drop 1) (setCore (setAppState PhotosUploaded) p1))
    | _, _ => p
    end.

(** [handleCropCancel] *)
Definition handleCropCancel (p : Page) : Page :=
  setCompletedCrop false (setCropQueue (drop 1) p).

(** [handleReset]. The calls in flight are not touched. *)
Definition handleReset (s : State) : State :=
  {| uploadedImages := []; inspirationImages := []; userPrompt := "";
     generatedImages := []; appState := Idle; generationCount := generationCount s;
     batches := batches s; regenerating := regenerating s; issued := issued s |}.

(** [isGenerateButtonDisabled] *)
Definition isGenerateButtonDisabled (s : State) : bool :=
  bool_decide (length (uploadedImages s) = 0)
  || bool_decide (length (inspirationImages s) = 0)
  || bool_decide (appState s = Generating).

(** A string is truthy when it is not empty. *)
Definition truthy (v : option string) : bool :=
  match v with Some (String _ _) => true | _ => false end.

(** The caption of the card of a slot, and the name of its download. *)
Definition captionOf (index : nat) : string := "Result " +:+ pretty (index + 1).

Definition fileNameOf (index : nat) : string :=
  "perfect-shot-" +:+ pretty (index + 1) +:+ ".jpg".

(** What a handler does outside the state. *)
Inductive Effect : Type :=
| Download (href fileName : string)
| Alert (message : string)
| CreateAlbumPage (imageData : list (string * string)).

(** [handleDownloadIndividualImage] *)
Definition handleDownloadIndividualImage (index : nat) (view : State) : list Effect :=
  match arrayGet (generatedImages view) index with
  | Some image =>
      if bool_decide (status image = StDone) && truthy (url image)
      then [Download (default "" (url image)) (fileNameOf index)]
      else []
  | None => []
  end.

(** An object with string keys, in the order in which they were added:
    [obj[key] = value]. *)
Fixpoint objSet (key value : string) (obj : list (string * string)) : list (string * string) :=
  match obj with
  | [] => [(key, value)]
  | (k, v) :: rest =>
      if bool_decide (k = key) then (k, value) :: rest else (k, v) :: objSet key value rest
  end.

(** The [forEach] of [handleDownloadAlbum], from index [index] on: the
    object it fills, or nothing when it reads the status of an element
    that is [undefined]. It passes over the holes. *)
Fixpoint collectDone (index : nat) (images : list (Element GeneratedImage))
    (imageData : list (string * string)) : option (list (string * string)) :=
  match images with
  | [] => Some imageData
  | Hole :: rest => collectDone (S index) rest imageData
  | Undefined :: _ => None
  | Value image :: rest =>
      if bool_decide (status image = StDone) && truthy (url image)
      then collectDone (S index) rest (objSet (captionOf index) (default "" (url image)) imageData)
      else collectDone (S index) rest imageData
  end.

Definition noImagesMessage : string :=
  "No images have been successfully generated to create an album.".

Definition albumErrorMessage : string :=
  "Sorry, there was an error creating your album. Please try again.".

(** [handleDownloadAlbum]: its effects, for the outcome [album] of
    [createAlbumPage], and the value of [isDownloading] when it ends. *)
Definition handleDownloadAlbum (album : Completion string) (view : State)
  : list Effect * bool :=
  let effects :=
    match collectDone 0 (generatedImages view) [] with
    | None => [Alert albumErrorMessage]
    | Some [] => [Alert noImagesMessage]
    | Some imageData =>
        match album with
        | Return albumDataUrl =>
            [CreateAlbumPage imageData; Download albumDataUrl "perfect-shot-album.jpg"]
        | Throw _ => [CreateAlbumPage imageData; Alert albumErrorMessage]
        end
    end in
  (effects, false).

(** What can happen to the page once the key of the service is set: the
    events of the slots; the button of the landing page; the text field
    and the slider; a paste and an upload, whose files are then being
    read; the end of such reads; the buttons of the dialog of the pasted
    images, of the crop editor and of the photos; the start-over button.
    The two downloads are left out: they change nothing of the state but
    [isDownloading]. *)
Inductive Event : Type :=
| Slots (ev : App.Event)
| GetStarted
| SetUserPrompt (text : string)
| SetGenerationCount (n : nat)
| Paste (onInput : bool) (results : list (option string))
| Upload (ty : ImageType) (results : list (option string))
| ReadsEnd (k : nat)
| AddPasted (ty : ImageType)
| CancelPaste
| CropComplete
| CropConfirm (canvas : option string)
| CropCancel
| RemoveMain (index : nat)
| RemoveInspiration (index : nat)
| Reset.

(** The handlers run in the render of the current state; the image of
    the editor is mounted while the queue is not empty. An event that
    cannot happen leaves no next state: an event of the slots that
    [App.step] does not have, the button of the landing page outside
    [Idle], a value that the slider does not have (it goes from 1 to 8),
    the end of reads that were not started ([ReadsEnd k] ends the reads
    at position [k] of [reading]). The other handlers are taken to be
    callable in every state, although the page does not always render
    the element that calls them; a render that reads an element of
    [generatedImages] that is [undefined] throws, which is not
    modelled. So the runs of the page are among the runs below. *)
Definition step (ev : Event) (p : Page) : option Page :=
  match ev with
  | Slots e => s ← App.step e (core p); Some (setCore (fun _ => s) p)
  | GetStarted =>
      if decide (appState (core p) = Idle)
      then Some (setCore (setAppState PhotosUploaded) p) else None
  | SetUserPrompt text => Some (setCore (setUserPrompt text) p)
  | SetGenerationCount n =>
      if decide (1 <= n <= 8)%nat then Some (setCore (setGenerationCount n) p) else None
  | Paste onInput results => Some (handlePaste onInput results p p)
  | Upload ty results => Some (handleImageUpload ty results p p)
  | ReadsEnd k =>
      rd ← reading p !! k; Some (readsSettled rd (setReading (delete k) p))
  | AddPasted ty => Some (handleAddPastedImages ty p p)
  | CancelPaste => Some (handleCancelPaste p)
  | CropComplete => Some (setCompletedCrop true p)
  | CropConfirm canvas =>
      Some (handleCropConfirm (bool_decide (0 < length (cropQueue p))) canvas p p)
  | CropCancel => Some (handleCropCancel p)
  | RemoveMain index => Some (removeMainImage index p)
  | RemoveInspiration index => Some (removeInspirationImage index p)
  | Reset => Some (setCore handleReset p)
  end.

Fixpoint run (evs : list Event) (p : Page) : option Page :=
  match evs with
  | [] => Some p
  | ev :: evs' => p' ← step ev p; run evs' p'
  end.

(** The events after which the collection of slots is another one: the
    generate button makes a new one, the start-over button empties
    it. *)
Definition replacesCollection (ev : Event) : bool :=
  match ev with Slots GenerateClick | Reset => true | _ => false end.



(** How slot [j] may change when [ev] happens: not at all; from pending
    to done or error, when a call for this slot settles; from done or
    error to pending, when its regeneration is requested. *)
Definition transition (ev : Event) (j : nat) (old new : option GeneratedImage) : Prop :=
  new = old
  ∨ (isPending old ∧ isTerminal new
     ∧ ∃ r, (∃ b, ev = Slots (BatchSettled b j r)) ∨ ev = Slots (RegenerateSettled j r))
  ∨ (isTerminal old ∧ isPending new ∧ ev = Slots (RegenerateClick j)).

(** The images of a kind that are held, those that wait in the queue to
    be cropped, and those of the uploads that are being read. *)
Definition held (ty : ImageType) (p : Page) : nat :=
  match ty with
  | main => length (uploadedImages (core p))
  | inspiration => length (inspirationImages (core p))
  end.

Definition queued (ty : ImageType) (p : Page) : nat :=
  length (filter (fun item => type item = ty) (cropQueue p)).

Definition filesOf (ty : ImageType) (rd : Read) : nat :=
  if decide (target rd = uploaded ty) then length (outcomes rd) else 0.

Definition beingRead (ty : ImageType) (p : Page) : nat :=
  foldr Nat.add 0 (filesOf ty <$> reading p).

(** The limits, counting the images that wait in the queue and those
    that are being read. *)
Definition withinLimits (p : Page) : Prop :=
  ∀ ty, (Z.of_nat (held ty p + queued ty p + beingRead ty p) ≤ maxImagesOf ty)%Z.

(** Events that add images: the files of an upload, the pasted images
    put into the queue. *)
Definition addsImages (ev : Event) : bool :=
  match ev with AddPasted _ | Upload _ _ => true | _ => false end.

(** No image waits to be cropped and no upload is being read. *)
Definition settled (p : Page) : Prop :=
  cropQueue p = [] ∧ ∀ ty, beingRead ty p = 0.

(** The page when the key of the service has just been set. *)
Definition mounted : Page :=
  {| core := {| uploadedImages := []; inspirationImages := []; userPrompt := "";
                generatedImages := []; appState := Idle; generationCount := 4;
                batches := []; regenerating := []; issued := [] |};
     isApiKeySet := true; cropQueue := []; completedCrop := false;
     pastedImages := []; isPasteModalOpen := false; isDownloading := false;
     reading := [] |}.

(** A page with the key of the service set, about to generate. *)
Definition keyed : Page :=
  {| core := Examples.fresh 4; isApiKeySet := true; cropQueue := [];
     completedCrop := false; pastedImages := []; isPasteModalOpen := false;
     isDownloading := false; reading := [] |}.

(** A page with the key of the service set and no photo yet. *)
Definition started : Page :=
  {| core := {| uploadedImages := []; inspirationImages := []; userPrompt := "";
                generatedImages := []; appState := PhotosUploaded; generationCount := 4;
                batches := []; regenerating := []; issued := [] |};
     isApiKeySet := true; cropQueue := []; completedCrop := false;
     pastedImages := []; isPasteModalOpen := false; isDownloading := false;
     reading := [] |}.

(** A page that shows two results, the second being regenerated. *)
Definition regenerating1 : Page :=
  {| core := handleRegenerateSlot Examples.shown 1 Examples.shown; isApiKeySet := true;
     cropQueue := []; completedCrop := false; pastedImages := [];
     isPasteModalOpen := false; isDownloading := false; reading := [] |}.

(** Along a run, images are only added while no image waits to be
    cropped and no upload is being read. *)
Fixpoint addsWhenSettled (evs : list Event) (p : Page) : Prop :=
  match evs with
  | [] => True
  | ev :: evs' =>
      (addsImages ev = true → settled p)
      ∧ match step ev p with
        | Some p' => addsWhenSettled evs' p'
        | None => True
        end
  end.

(** Pasting one image, whose read then ends, and adding it to the
    subject photos; completing a crop and saving it; a sequence of
    events repeated. *)
Definition pasteAndAdd (u : string) : list Event :=
  [Paste false [Some u]; ReadsEnd 0; AddPasted main].

Definition cropAndSave (cropped : string) : list Event :=
  [CropComplete; CropConfirm (Some cropped)].

Fixpoint times (n : nat) (evs : list Event) : list Event :=
  match n with
  | O => []
  | S k => evs ++ times k evs
  end.

(** The slots that are done with an image, from index [index] on, each
    with the caption of its card. *)
Fixpoint doneEntries (index : nat) (images : list (Element GeneratedImage))
  : list (string * string) :=
  match images with
  | [] => []
  | g :: rest =>
      match g with
      | Value image =>
          if bool_decide (status image = StDone) && truthy (url image)
          then (captionOf index, default "" (url image)) :: doneEntries (S index) rest
          else doneEntries (S index) rest
      | _ => doneEntries (S index) rest
      end
  end.

(** Some runs of the page. From the start: the button of the landing
    page, then a subject photo and a style photo are uploaded, cropped
    and saved. *)
Definition setUp : list Event :=
  [GetStarted;
   Upload main [Some Examples.jpegUrl]; ReadsEnd 0;
   CropComplete; CropConfirm (Some Examples.pngUrl);
   Upload inspiration [Some Examples.pngUrl]; ReadsEnd 0;
   CropComplete; CropConfirm (Some Examples.jpegUrl)].

(** While four images are generated, an image is
    pasted in, added to the subject photos, cropped and saved, which
    brings the generate button back; then ... *)
Definition pasteAndCrop : list Event :=
  [Paste false [Some Examples.pngUrl]; ReadsEnd 0; AddPasted main;
   CropComplete; CropConfirm (Some Examples.jpegUrl)].

(** ... two images are generated instead, while the four calls of the
    first batch are in flight; *)
Definition secondBatch : list Event :=
  Slots GenerateClick :: pasteAndCrop ++ [SetGenerationCount 2; Slots GenerateClick].


End Page.

(** ** The card of a slot (components/PhotoCard) *)

Module PhotoCard.
Import App.

Record PhotoCardProps : Type :=
  { imageUrl : option string;
    caption : string;
    status : ImageStatus;
    error : option string;
    onRegenerate : bool;
    onDownload : bool }.

(** What the card renders: the spinner, the error display, the image
    with its two buttons, the placeholder. *)
Record Rendering : Type :=
  { spinner : bool;
    errorDisplay : bool;
    image : bool;
    downloadButton : bool;
    regenerateButton : bool;
    placeholder : bool }.

Definition render (props : PhotoCardProps) : Rendering :=
  let isDone := bool_decide (status props = StDone) in
  {| spinner := bool_decide (status props = StPending);
     errorDisplay := bool_decide (status props = StError);
     image := isDone && Page.truthy (imageUrl props);
     downloadButton := isDone && Page.truthy (imageUrl props) && onDownload props;
     regenerateButton := isDone && Page.truthy (imageUrl props) && onRegenerate props;
     placeholder := isDone && negb (Page.truthy (imageUrl props)) |}.

(** The card that the application renders for the element at [index]. *)
Definition cardOf (index : nat) (img : GeneratedImage) : PhotoCardProps :=
  {| imageUrl := url img;
     caption := Page.captionOf index;
     status := App.status img;
     error := App.error img;
     onRegenerate := true;
     onDownload := true |}.

(** Whether the card of a slot shows the regenerate button. *)
Definition regenerateOffered (index : nat) (g : option GeneratedImage) : bool :=
  match g with
  | Some img => regenerateButton (render (cardOf index img))
  | None => false
  end.

(** The events that the rendered page allows: a regeneration is
    requested with the button of a card. *)
Definition uiStep (ev : Page.Event) (p : Page.Page) : option Page.Page :=
  match ev with
  | Page.Slots (RegenerateClick index) =>
      if regenerateOffered index (slot (Page.core p) index) then Page.step ev p else None
  | _ => Page.step ev p
  end.

Fixpoint uiRun (evs : list Page.Event) (p : Page.Page) : option Page.Page :=
  match evs with
  | [] => Some p
  | ev :: evs' => p' ← uiStep ev p; uiRun evs' p'
  end.

End PhotoCard.

(** ** The page of the album (lib/albumUtils): where the cards go *)

Module AlbumUtils.
Import PrimFloat.
Local Open Scope float_scope.

Definition canvasWidth : float := 2480.
Definition canvasHeight : float := 3508.

Definition cols : float := 2.
Definition rows : float := 3.
Definition padding : float := 100.

Definition contentTopMargin : float := 350.
Definition contentHeight : float := canvasHeight - contentTopMargin.
Definition cellWidth : float := (canvasWidth - padding * (cols + 1)) / cols.
Definition cellHeight : float := (contentHeight - padding * (rows + 1)) / rows.

#[warnings="-inexact-float"]
Definition photoCardAspectRatio : float := 1.33.
#[warnings="-inexact-float"]
Definition maxPhotoWidth : float := cellWidth * 0.9.
#[warnings="-inexact-float"]
Definition maxPhotoHeight : float := cellHeight * 0.9.

(** [photoWidth] and [photoHeight] after the [if]. *)
Definition photoSize : float * float :=
  let photoWidth := maxPhotoWidth in
  let photoHeight := photoWidth * photoCardAspectRatio in
  if ltb maxPhotoHeight photoHeight
  then (maxPhotoHeight / photoCardAspectRatio, maxPhotoHeight)
  else (photoWidth, photoHeight).

Definition photoWidth : float := fst photoSize.
Definition photoHeight : float := snd photoSize.

(** A small natural number as a number of the language. *)
Fixpoint number (n : nat) : float :=
  match n with
  | O => 0
  | S k => number k + 1
  end.

(** [Math.floor(index / grid.cols)] and [index % grid.cols] *)
Definition row (index : nat) : float := number (Nat.div index 2).
Definition col (index : nat) : float := number (Nat.modulo index 2).

Definition x (index : nat) : float :=
  padding * (col index + 1) + cellWidth * col index + (cellWidth - photoWidth) / 2.

Definition y (index : nat) : float :=
  contentTopMargin + padding * (row index + 1) + cellHeight * row index
  + (cellHeight - photoHeight) / 2.

(** The point about which the card is rotated and drawn. *)
Definition centre (index : nat) : float * float :=
  (x index + photoWidth / 2, y index + photoHeight / 2).

(** The frame of the card is the rectangle drawn about the centre, at
    [-photoWidth / 2] and [-photoHeight / 2]; here before the rotation. *)
Definition frameLeft (index : nat) : float := fst (centre index) + - photoWidth / 2.
Definition frameTop (index : nat) : float := snd (centre index) + - photoHeight / 2.

(** The card is turned about its centre by [(Math.random() - 0.5) * 0.05],
    an angle of at most [maxRotation] either way. Turning by an angle
    [t] moves a point at [(dx, dy)] from the centre by at most
    [(|dx| + |dy|) * |t|] in each direction, so no point of the frame
    moves by more than [sway]. *)
#[warnings="-inexact-float"]
Definition maxRotation : float := 0.5 * 0.05.
Definition sway : float := (photoWidth / 2 + photoHeight / 2) * maxRotation.

(** The frame lies on the page, however it is turned. *)
Definition onPage (index : nat) : bool :=
  leb sway (frameLeft index) && leb (frameLeft index + photoWidth + sway) canvasWidth
  && leb sway (frameTop index) && leb (frameTop index + photoHeight + sway) canvasHeight.

(** The frame, however it is turned, and its centre lie below the page. *)
Definition belowPage (index : nat) : bool :=
  ltb canvasHeight (frameTop index - sway) && ltb canvasHeight (snd (centre index)).

End AlbumUtils.

(** ** The login form (components/LoginModal) *)

Module LoginModal.

Record Form : Type :=
  { isLogin : bool; email : string; password : string; confirmPassword : string }.

Inductive AuthCall : Type :=
| login (email password : string)
| signup (email password : string).

(** How a call to the authentication ends: it resolves, it rejects with
    a reason that is an object, whose [message] property is given ([None]
    when the reason has none), or it rejects with [null] or [undefined],
    of which no property can be read. *)
Inductive AuthResult : Type :=
| Resolved
| Rejected (message : option string)
| RejectedNullish.

(** The state of the form when [handleSubmit] ends, with the call it
    made, if any, and whether it closed the form. *)
Record Submitted : Type :=
  { call : option AuthCall; error : string; loading : bool; closed : bool }.

(** [error.message || fallback] *)
Definition messageOr (message : option string) (fallback : string) : string :=
  match message with
  | Some (String c m) => String c m
  | _ => fallback
  end.

Definition afterCall (c : AuthCall) (r : AuthResult) : Submitted :=
  match r with
  | Resolved => {| call := Some c; error := ""; loading := false; closed := true |}
  | Rejected message =>
      {| call := Some c; error := messageOr message "An error occurred";
         loading := false; closed := false |}
  | RejectedNullish =>
      (* reading [error.message] throws in the catch, before [setError];
         the [finally] still runs *)
      {| call := Some c; error := ""; loading := false; closed := false |}
  end.

Definition handleSubmit (f : Form) (auth : AuthCall -> AuthResult) : Submitted :=
  if isLogin f then afterCall (login (email f) (password f)) (auth (login (email f) (password f)))
  else if negb (bool_decide (password f = confirmPassword f)) then
    {| call := None; error := "Passwords do not match"; loading := false; closed := false |}
  else if bool_decide (String.length (password f) < 6) then
    {| call := None; error := "Password must be at least 6 characters";
       loading := false; closed := false |}
  else afterCall (signup (email f) (password f)) (auth (signup (email f) (password f))).

End LoginModal.

(** ** The footer (components/Footer) and the key of the service *)

Module Footer.

Definition REMIX_IDEAS : list string :=
  [ "to create a professional LinkedIn headshot.";
    "to get the perfect vacation photo.";
    "to design a fantasy version of yourself.";
    "to generate a custom video game avatar.";
    "to see yourself in an artistic new style.";
    "to make a creative birthday portrait." ].

(** The update of the interval: [(prevIndex + 1) % REMIX_IDEAS.length]. *)
Definition tick (prevIndex : nat) : nat := (prevIndex + 1) mod length REMIX_IDEAS.

Fixpoint ticks (n : nat) (index : nat) : nat :=
  match n with
  | O => index
  | S k => tick (ticks k index)
  end.

End Footer.

Module ApiKey.
Import Js GeminiService.

(** The key in the session storage, the key of the client of the
    service, and the flag of the component. *)
Record KeyState : Type :=
  { storedKey : option string; clientKey : option string; isApiKeySet : bool }.

Definition requiredMessage : string := "API key is required to initialize Google AI.".

(** [initializeGoogleGenAI]: the key of the new client. The constructor
    of the client is taken not to throw. *)
Definition initializeGoogleGenAI (apiKey : string) : Completion string :=
  match apiKey with
  | EmptyString => Throw (ErrorObj requiredMessage)
  | _ => Return apiKey
  end.

(** [handleApiKeySubmit] *)
Definition handleApiKeySubmit (key : string) (k : KeyState) : KeyState :=
  match initializeGoogleGenAI key with
  | Return c => {| storedKey := Some key; clientKey := Some c; isApiKeySet := true |}
  | Throw _ => k
  end.

(** The [handleSubmit] of the prompt, for the text typed. *)
Definition promptSubmit (localApiKey : string) (k : KeyState) : KeyState :=
  match trim localApiKey with
  | EmptyString => k
  | key => handleApiKeySubmit key k
  end.

(** The effect that runs when the component mounts: the page was
    loaded with [stored] in the session storage. *)
Definition mount (stored : option string) : KeyState :=
  match stored with
  | Some (String c key) =>
      match initializeGoogleGenAI (String c key) with
      | Return cl => {| storedKey := stored; clientKey := Some cl; isApiKeySet := true |}
      | Throw _ => {| storedKey := None; clientKey := None; isApiKeySet := false |}
      end
  | _ => {| storedKey := stored; clientKey := None; isApiKeySet := false |}
  end.

End ApiKey.

(** * Properties *)

Import Js GeminiService Examples.

#[local] Arguments String.append !_ _ / : simpl nomatch.

(** ** Strings *)

Section StringFacts.

Lemma append_assoc (a b c : string) : (a +:+ b) +:+ c = a +:+ (b +:+ c).
Proof. induction a as [|x a IH]; simpl; [done | by rewrite IH]. Qed.

Lemma append_nil_r (a : string) : a +:+ "" = a.
Proof. induction a as [|x a IH]; simpl; [done | by rewrite IH]. Qed.

Lemma stripPrefix_app (p r : string) : stripPrefix p (p +:+ r) = Some r.
Proof.
  induction p as [|a p IH]; simpl; [done|].
  rewrite Ascii.eqb_refl. apply IH.
Qed.

Lemma stripPrefix_inv (p s r : string) : stripPrefix p s = Some r -> s = p +:+ r.
Proof.
  revert s; induction p as [|a p IH]; intros s H; simpl in *.
  - congruence.
  - destruct s as [|b s]; [discriminate|].
    destruct (Ascii.eqb_spec a b) as [->|]; [|discriminate].
    f_equal; auto.
Qed.

Lemma startsWith_app (p r : string) : startsWith (p +:+ r) p = true.
Proof.
  induction p as [|a p IH]; simpl; [done|].
  rewrite Ascii.eqb_refl. apply IH.
Qed.

Lemma startsWith_inv (p s : string) : startsWith s p = true -> exists r, s = p +:+ r.
Proof.
  revert s; induction p as [|a p IH]; intros s H.
  - exists s. reflexivity.
  - destruct s as [|b s]; simpl in H; [discriminate|].
    destruct (Ascii.eqb_spec a b) as [->|]; [|discriminate].
    destruct (IH _ H) as [r ->]. exists r. reflexivity.
Qed.

Lemma includes_unfold (s sub : string) :
  includes s sub =
  startsWith s sub || match s with EmptyString => false | String _ s' => includes s' sub end.
Proof. destruct s; reflexivity. Qed.

(** [includes] finds exactly the substrings. *)
Lemma includes_iff (s sub : string) :
  includes s sub = true <-> exists a b, s = a +:+ sub +:+ b.
Proof.
  split.
  - induction s as [|c s IH]; simpl; intros H.
    + rewrite orb_false_r in H. destruct (startsWith_inv _ _ H) as [r Hr].
      exists "", r. exact Hr.
    + apply orb_true_iff in H as [H|H].
      * destruct (startsWith_inv _ _ H) as [r Hr]. exists "", r. exact Hr.
      * destruct (IH H) as (a & b & ->). exists (String c a), b. reflexivity.
  - intros (a & b & ->). induction a as [|c a IH]; simpl.
    + rewrite includes_unfold, startsWith_app. reflexivity.
    + rewrite IH. apply orb_true_r.
Qed.

Lemma span_app (p : ascii -> bool) (w r : string) :
  allChars p w = true ->
  match r with EmptyString => True | String c _ => p c = false end ->
  span p (w +:+ r) = (w, r).
Proof.
  intros Hw Hr. induction w as [|c w IH]; simpl in *.
  - destruct r as [|c r]; [done|]. simpl. by rewrite Hr.
  - apply andb_true_iff in Hw as [Hc Hw]. rewrite Hc, (IH Hw). reflexivity.
Qed.

Lemma span_inv (p : ascii -> bool) (s w r : string) :
  span p s = (w, r) -> s = w +:+ r /\ allChars p w = true.
Proof.
  revert w r; induction s as [|c s IH]; intros w r H; simpl in H.
  - injection H as <- <-. done.
  - destruct (p c) eqn:Hc.
    + destruct (span p s) as [w' r'] eqn:E. injection H as <- <-.
      destruct (IH _ _ eq_refl) as [-> Hw]. simpl. by rewrite Hc, Hw.
    + injection H as <- <-. done.
Qed.

Lemma base64_not_line_terminator (c : ascii) :
  isBase64Char c = true -> negb (isLineTerminator c) = true.
Proof.
  unfold isBase64Char, isLineTerminator, inRange. generalize (code c). intros n H.
  repeat match type of H with
         | (_ || _) = true => apply orb_true_iff in H as [H|H]
         | (_ && _) = true => apply andb_true_iff in H as [? ?]
         end;
  repeat match goal with
         | H : (_ <=? _)%nat = true |- _ => apply Nat.leb_le in H
         | H : (_ =? _)%nat = true |- _ => apply Nat.eqb_eq in H
         end;
  apply negb_true_iff, orb_false_iff; split; apply Nat.eqb_neq; lia.
Qed.

Lemma base64_single_line (s : string) :
  isBase64 s = true -> allChars (fun c => negb (isLineTerminator c)) s = true.
Proof.
  unfold isBase64. induction s as [|c s IH]; simpl; [done|].
  intros [Hc Hs]%andb_true_iff. by rewrite (base64_not_line_terminator _ Hc), IH.
Qed.

End StringFacts.

(** ** The request encoder *)

Section Encoder.

(** The pattern match of the source and the format of the specification
    agree. *)
Lemma matchDataUrl_format (dataUrl : string) (a : ImageAsset) :
  matchDataUrl dataUrl = Some (mediaType a, payload a) <-> EmbeddedDataFormat dataUrl a.
Proof.
  destruct a as [m d]; unfold EmbeddedDataFormat, toDataUrl, matchDataUrl.
  cbn [mediaType payload]. split.
  - intros H.
    destruct (stripPrefix "data:" dataUrl) as [r1|] eqn:E1; [|discriminate].
    apply stripPrefix_inv in E1 as ->. cbn [mbind option_bind] in H.
    destruct (stripPrefix "image/" r1) as [r2|] eqn:E2; [|discriminate].
    apply stripPrefix_inv in E2 as ->. cbn [mbind option_bind] in H.
    destruct (span isWordChar r2) as [w r3] eqn:E3.
    apply span_inv in E3 as [-> Hw].
    destruct (decide (w = "")) as [|Hne]; [discriminate|].
    destruct (stripPrefix ";base64," r3) as [r4|] eqn:E4; [|discriminate].
    apply stripPrefix_inv in E4 as ->. cbn [mbind option_bind] in H.
    destruct (allChars _ r4) eqn:E5; [|discriminate].
    injection H as <- <-. split; [|split; [done|]].
    + exists w. done.
    + reflexivity.
  - intros ((w & Hne & Hw & ->) & Hd & ->).
    rewrite !append_assoc, !stripPrefix_app. cbn [mbind option_bind].
    rewrite stripPrefix_app. cbn [mbind option_bind].
    rewrite (span_app isWordChar w (";base64," +:+ d) Hw) by done.
    destruct (decide (w = "")); [done|].
    rewrite stripPrefix_app. cbn [mbind option_bind]. by rewrite Hd.
Qed.

End Encoder.

Section EncoderClaims.

Lemma dataUrlToGeminiPart_format (dataUrl : string) (a : ImageAsset) :
  EmbeddedDataFormat dataUrl a -> dataUrlToGeminiPart dataUrl = Return (inlinePart a).
Proof.
  intros H%matchDataUrl_format. unfold dataUrlToGeminiPart. by rewrite H.
Qed.

Lemma dataUrlToGeminiPart_cases (dataUrl : string) :
  (exists a, EmbeddedDataFormat dataUrl a /\ dataUrlToGeminiPart dataUrl = Return (inlinePart a))
  \/ ((~ exists a, EmbeddedDataFormat dataUrl a)
      /\ dataUrlToGeminiPart dataUrl = Throw (ErrorObj invalidDataUrlMessage)).
Proof.
  unfold dataUrlToGeminiPart.
  destruct (matchDataUrl dataUrl) as [[m d]|] eqn:E.
  - left. exists {| mediaType := m; payload := d |}. split; [|done].
    by apply matchDataUrl_format.
  - right. split; [|done]. intros [a Ha%matchDataUrl_format]. congruence.
Qed.

(** Encoding a list of data URLs: the parts of all of them in order, or
    the error of the encoder. *)
Lemma mapDataUrls_cases (urls : list string) :
  (exists assets, Forall2 EmbeddedDataFormat urls assets
                  /\ mapDataUrls urls = Return (inlinePart <$> assets))
  \/ (Exists (fun u => ~ exists a, EmbeddedDataFormat u a) urls
      /\ mapDataUrls urls = Throw (ErrorObj invalidDataUrlMessage)).
Proof.
  induction urls as [|u us IH]; simpl.
  - left. exists []. split; [constructor | done].
  - destruct (dataUrlToGeminiPart_cases u) as [(a & Ha & ->)|[Hn ->]].
    + destruct IH as [(assets & Hall & ->)|[Hex ->]].
      * left. exists (a :: assets). split; [by constructor | done].
      * right. split; [by apply Exists_cons_tl | done].
    + right. split; [by apply Exists_cons_hd | done].
Qed.

Lemma catchGenerate_invalid :
  catchGenerate (ErrorObj invalidDataUrlMessage)
  = ErrorObj (failedPrefix +:+ invalidDataUrlMessage).
Proof. vm_compute. reflexivity. Qed.

Lemma generate_malformed_asset (ai : Upstream) (mains insps : list string)
    (userPrompt dataUrl : string) :
  dataUrl ∈ mains ++ insps ->
  (~ exists a, EmbeddedDataFormat dataUrl a) ->
  generateVibeBasedImage ai mains insps userPrompt
  = ([], Throw (ErrorObj (failedPrefix +:+ invalidDataUrlMessage))).
Proof.
  intros Hin Hbad. unfold generateVibeBasedImage, tryGenerate.
  destruct (mapDataUrls_cases mains) as [(am & Hm & ->)|[_ ->]];
    [|by rewrite catchGenerate_invalid].
  destruct (mapDataUrls_cases insps) as [(ai' & Hi & ->)|[_ ->]];
    [|by rewrite catchGenerate_invalid].
  exfalso. apply Hbad.
  apply elem_of_app in Hin as [Hin|Hin].
  - apply list_elem_of_lookup in Hin as [k Hk].
    destruct (Forall2_lookup_l _ _ _ _ _ Hm Hk) as (a & _ & Ha). by exists a.
  - apply list_elem_of_lookup in Hin as [k Hk].
    destruct (Forall2_lookup_l _ _ _ _ _ Hi Hk) as (a & _ & Ha). by exists a.
Qed.

(** C9. The request encoder turns a payload into an inline-data part
    exactly when the payload has the expected embedded-data format
    (header [data:image/...;base64,] and payload); any other payload
    makes it throw its encoding error. Inside [generateVibeBasedImage]
    that error stops the attempt before any upstream call is made (so
    nothing is retried) and reaches the caller, wrapped in the error that
    [generateVibeBasedImage] throws. *)
Theorem encoder_accepts_exactly_the_format (dataUrl : string) :
  (forall a, EmbeddedDataFormat dataUrl a <->
             dataUrlToGeminiPart dataUrl = Return (inlinePart a))
  /\ ((exists part, dataUrlToGeminiPart dataUrl = Return part) <->
      (exists a, EmbeddedDataFormat dataUrl a))
  /\ ((exists part, dataUrlToGeminiPart dataUrl = Return part)
      \/ (dataUrlToGeminiPart dataUrl = Throw (ErrorObj invalidDataUrlMessage)
          /\ forall ai mains insps userPrompt,
               dataUrl ∈ mains ++ insps ->
               generateVibeBasedImage ai mains insps userPrompt
               = ([], Throw (ErrorObj (failedPrefix +:+ invalidDataUrlMessage))))).
Proof.
  split; [|split].
  - intros a. split; [apply dataUrlToGeminiPart_format|].
    unfold dataUrlToGeminiPart. intros H. apply matchDataUrl_format.
    destruct (matchDataUrl dataUrl) as [[m d]|]; [|discriminate].
    destruct a as [m' d']. unfold inlinePart in H. simpl in *. congruence.
  - destruct (dataUrlToGeminiPart_cases dataUrl) as [(a & Ha & E)|[Hn E]].
    + split; intros _; eauto.
    + split; [intros [part Hp]; congruence | intros H; contradiction].
  - destruct (dataUrlToGeminiPart_cases dataUrl) as [(a & Ha & E)|[Hn E]].
    + left. eauto.
    + right. split; [done|]. intros. by eapply generate_malformed_asset.
Qed.

Lemma acceptedMediaType_inv (m : string) :
  acceptedMediaType m = true ->
  exists subtype, subtype ≠ "" /\ allChars isWordChar subtype = true
                  /\ m = "image/" +:+ subtype.
Proof.
  unfold acceptedMediaType. destruct (stripPrefix "image/" m) as [w|] eqn:E; [|done].
  apply stripPrefix_inv in E as ->.
  intros [Hne Hw]%andb_true_iff. exists w. split; [|done].
  by apply negb_true_iff, bool_decide_eq_false in Hne.
Qed.

Lemma asset_has_format (a : ImageAsset) :
  acceptedMediaType (mediaType a) = true -> isBase64 (payload a) = true ->
  EmbeddedDataFormat (toDataUrl a) a.
Proof.
  intros Hm Hp. split; [by apply acceptedMediaType_inv|].
  split; [by apply base64_single_line | done].
Qed.

(** The search of the extractor passes over the parts without inline
    data that come before the first part that has some. *)
Lemma find_after_text (before after : list Part) (part : Part) :
  Forall (fun q => inlineData q = None) before ->
  hasInlineData part = true ->
  List.find hasInlineData (before ++ part :: after) = Some part.
Proof.
  intros Hbefore Hpart. induction Hbefore as [|q before Hq _ IH]; simpl.
  - by rewrite Hpart.
  - unfold hasInlineData at 1. by rewrite Hq.
Qed.

(** C10. Round trip. An asset whose media type the encoder accepts and
    whose payload is base64 is encoded into the part that carries this
    media type and this payload. Whenever that part is the first part
    with inline data of the first candidate of a response, whatever
    else the response holds, the response extractor turns the response
    back into the data URL of the asset, from which the same media type
    and payload are read, and which the encoder encodes into the same
    part again. *)
Theorem encode_decode_roundtrip (a : ImageAsset) :
  acceptedMediaType (mediaType a) = true ->
  isBase64 (payload a) = true ->
  dataUrlToGeminiPart (toDataUrl a) = Return (inlinePart a)
  /\ inlineData (inlinePart a)
     = Some {| mimeType := Some (mediaType a); data := Some (payload a) |}
  /\ (forall (before after : list Part) (others : list Candidate) (t : option string),
        Forall (fun q => inlineData q = None) before ->
        processGeminiResponse
          {| candidates :=
               Some ({| content := Some {| parts := Some (before ++ inlinePart a :: after) |} |}
                     :: others);
             responseText := t |}
        = Return (toDataUrl a)
        /\ (part ← dataUrlToGeminiPart (toDataUrl a);
            dataUrl ← processGeminiResponse
                        {| candidates :=
                             Some ({| content := Some {| parts := Some (before ++ part :: after) |} |}
                                   :: others);
                           responseText := t |};
            dataUrlToGeminiPart dataUrl)
           = Return (inlinePart a))
  /\ (forall response,
        imagePartOf response = Some (inlinePart a) ->
        processGeminiResponse response = Return (toDataUrl a))
  /\ matchDataUrl (toDataUrl a) = Some (mediaType a, payload a).
Proof.
  intros Hm Hp. pose proof (asset_has_format a Hm Hp) as Hf.
  pose proof (dataUrlToGeminiPart_format _ _ Hf) as Henc.
  assert (forall before after others t,
            Forall (fun q => inlineData q = None) before ->
            processGeminiResponse
              {| candidates :=
                   Some ({| content := Some {| parts := Some (before ++ inlinePart a :: after) |} |}
                         :: others);
                 responseText := t |}
            = Return (toDataUrl a)) as Hdec.
  { intros before after others t Hbefore. unfold processGeminiResponse, imagePartOf.
    cbn [firstCandidateParts candidates head content parts mbind option_bind].
    rewrite (find_after_text before after (inlinePart a) Hbefore eq_refl). reflexivity. }
  split; [exact Henc|]. split; [done|]. split; [|split].
  - intros before after others t Hbefore. split; [by apply Hdec|].
    rewrite Henc. cbn [mbind Completion_bind]. rewrite (Hdec _ _ _ _ Hbefore).
    cbn [mbind Completion_bind]. exact Henc.
  - intros response Hfind. unfold processGeminiResponse. rewrite Hfind. reflexivity.
  - by apply matchDataUrl_format.
Qed.

Lemma encode_decode_roundtrip_witness :
  dataUrlToGeminiPart (toDataUrl pngAsset) = Return (inlinePart pngAsset)
  /\ inlineData (inlinePart pngAsset)
     = Some {| mimeType := Some "image/png"; data := Some "QUJD" |}
  /\ processGeminiResponse (responseOf [captionPart; inlinePart pngAsset] (Some "Here it is."))
     = Return "data:image/png;base64,QUJD"
  /\ (part ← dataUrlToGeminiPart "data:image/png;base64,QUJD";
      dataUrl ← processGeminiResponse (responseOf [captionPart; part] (Some "Here it is."));
      dataUrlToGeminiPart dataUrl)
     = Return (inlinePart pngAsset)
  /\ matchDataUrl (toDataUrl pngAsset) = Some ("image/png", "QUJD").
Proof.
  pose proof (encode_decode_roundtrip pngAsset eq_refl eq_refl) as (H1 & H2 & H3 & _ & H5).
  assert (Forall (fun q => inlineData q = None) [captionPart]) as Hcap
    by (constructor; [reflexivity | constructor]).
  destruct (H3 [captionPart] [] [] (Some "Here it is.") Hcap) as [H3a H3b].
  split; [exact H1|]. split; [exact H2|]. split; [exact H3a|]. split; [exact H3b|]. exact H5.
Defined.

End EncoderClaims.

(** ** The retry loop *)

Section Retry.

Variable ai : Upstream.
Variable parts : list Part.

Lemma attempt_values : seqZ 1 maxRetries = [1; 2; 3]%Z.
Proof. reflexivity. Qed.

Ltac unfold_loop :=
  unfold callGeminiWithRetry; rewrite attempt_values; cbn [retryLoop].

Ltac use_transient H :=
  destruct H as (? & ? & -> & ? & ?);
  repeat match goal with
         | E : errorMessageOf _ = Some _ |- _ => rewrite E; clear E
         | E : isRetriableError _ = true |- _ => rewrite E; clear E
         end.

Lemma retry_first_success (r : GenerateContentResponse) :
  ai 1%Z (request parts) = Return r ->
  callGeminiWithRetry ai parts = ([Call (request parts)], Return r).
Proof. intros H. unfold_loop. by rewrite H. Qed.

Lemma retry_first_permanent :
  isPermanent (ai 1%Z (request parts)) ->
  exists e, callGeminiWithRetry ai parts = ([Call (request parts)], Throw e).
Proof.
  intros (e & He & Hc). unfold_loop. rewrite He.
  destruct (errorMessageOf e) as [m|]; [rewrite Hc|]; simpl; eauto.
Qed.

Lemma retry_third_attempt (o : Completion GenerateContentResponse) :
  isTransient (ai 1%Z (request parts)) ->
  isTransient (ai 2%Z (request parts)) ->
  ai 3%Z (request parts) = o ->
  callGeminiWithRetry ai parts
  = ([Call (request parts); Sleep 1000; Call (request parts); Sleep 2000;
      Call (request parts)],
     match o with
     | Return r => Return r
     | Throw e =>
         match errorMessageOf e with
         | Some _ => Throw e
         | None => Throw (ErrorObj typeErrorMessage)
         end
     end).
Proof.
  intros H1 H2 H3. unfold_loop. use_transient H1. use_transient H2. rewrite H3.
  destruct o as [r|e]; [reflexivity|].
  destruct (errorMessageOf e) as [m3|]; [|reflexivity].
  rewrite andb_false_r. reflexivity.
Qed.

(** Whatever the upstream does, the loop makes one to three calls, all
    with the same request, and every delay is followed by a call. *)
Lemma retry_trace_shape :
  let evs := (callGeminiWithRetry ai parts).1 in
  delaysPrecedeCalls evs
  /\ Forall (fun e => isCall e = true -> e = Call (request parts)) evs
  /\ 1 <= attempts evs <= 3
  /\ (exists evs', evs = evs' ++ [Call (request parts)])
  /\ (exists evs', evs = Call (request parts) :: evs').
Proof.
  unfold_loop.
  repeat match goal with
         | |- context [match ai ?n ?r with _ => _ end] => destruct (ai n r) as [?|?]
         | |- context [match errorMessageOf ?e with _ => _ end] =>
             destruct (errorMessageOf e) as [?|]
         | |- context [isRetriableError ?m] => destruct (isRetriableError m)
         end;
  cbn -[request];
  (split; [exact I|]);
  (split; [repeat (apply Forall_cons_2; [done|]); apply Forall_nil_2|]);
  (split; [unfold attempts; cbn -[request]; lia|]);
  (split; [|by eexists]);
  first [ by exists [] | by eexists [_; _] | by eexists [_; _; _; _] ].
Qed.

End Retry.

(** ** The generation client *)

Section Client.

Variable ai : Upstream.
Variables mains insps : list string.
Variable userPrompt : string.
Variables subjects styles : list ImageAsset.
Hypothesis mains_ok : Forall2 EmbeddedDataFormat mains subjects.
Hypothesis insps_ok : Forall2 EmbeddedDataFormat insps styles.

Lemma mapDataUrls_ok (urls : list string) (assets : list ImageAsset) :
  Forall2 EmbeddedDataFormat urls assets -> mapDataUrls urls = Return (inlinePart <$> assets).
Proof.
  induction 1 as [|u a us assets Hu _ IH]; simpl; [done|].
  by rewrite (dataUrlToGeminiPart_format _ _ Hu), IH.
Qed.

(** With well-formed images, a run of the client is a run of the retry
    loop on the payload, followed by the extraction of the image and, on
    failure, by the [catch]. Extraction and [catch] perform no call. *)
Lemma generate_run :
  generateVibeBasedImage ai mains insps userPrompt
  = ((callGeminiWithRetry ai (payloadOf userPrompt subjects styles)).1,
     match (callGeminiWithRetry ai (payloadOf userPrompt subjects styles)).2
           ≫= processGeminiResponse with
     | Return url => Return url
     | Throw error => Throw (catchGenerate error)
     end).
Proof.
  unfold generateVibeBasedImage, tryGenerate.
  rewrite (mapDataUrls_ok _ _ mains_ok), (mapDataUrls_ok _ _ insps_ok).
  fold (payloadOf userPrompt subjects styles).
  destruct (callGeminiWithRetry ai (payloadOf userPrompt subjects styles)) as [evs r]. simpl.
  by destruct (r ≫= processGeminiResponse).
Qed.

End Client.

Lemma processGeminiResponse_image (response : GenerateContentResponse)
    (part : Part) (blob : Blob) :
  imagePartOf response = Some part -> inlineData part = Some blob ->
  processGeminiResponse response
  = Return ("data:" +:+ template (mimeType blob) +:+ ";base64," +:+ template (data blob)).
Proof. intros H1 H2. unfold processGeminiResponse. rewrite H1. simpl. by rewrite H2. Qed.

Lemma processGeminiResponse_text (response : GenerateContentResponse) :
  imagePartOf response = None ->
  processGeminiResponse response
  = Throw (ErrorObj (textInsteadPrefix +:+ quoted (shownText (responseText response)))).
Proof. intros H. unfold processGeminiResponse. by rewrite H. Qed.

(** [find] returns the first element that has inline data. *)
Lemma find_first (ps : list Part) (part : Part) :
  List.find hasInlineData ps = Some part <->
  exists i, ps !! i = Some part /\ hasInlineData part = true
            /\ forall j q, j < i -> ps !! j = Some q -> hasInlineData q = false.
Proof.
  revert part; induction ps as [|p ps IH]; intros part; simpl.
  - split; [done|]. intros (i & Hi & _). by rewrite lookup_nil in Hi.
  - destruct (hasInlineData p) eqn:Hp.
    + split.
      * intros [= <-]. exists 0. split; [done|]. split; [done|]. intros; lia.
      * intros ([|i] & Hi & Hpart & Hlt).
        -- simpl in Hi. congruence.
        -- specialize (Hlt 0 p ltac:(lia) eq_refl). congruence.
    + rewrite IH. split.
      * intros (i & Hi & Hpart & Hlt). exists (S i). split; [done|]. split; [done|].
        intros [|j] q Hj Hq; simpl in Hq; [congruence|]. eapply Hlt; [|done]. lia.
      * intros ([|i] & Hi & Hpart & Hlt); simpl in Hi; [congruence|].
        exists i. split; [done|]. split; [done|].
        intros j q Hj Hq. apply (Hlt (S j) q); [lia | done].
Qed.

Lemma find_none (ps : list Part) :
  List.find hasInlineData ps = None <-> Forall (fun q => hasInlineData q = false) ps.
Proof.
  induction ps as [|p ps IH]; simpl.
  - split; [constructor | done].
  - destruct (hasInlineData p) eqn:Hp.
    + split; [done|]. intros H. apply Forall_cons_1 in H as [? _]. congruence.
    + rewrite IH. split; [by constructor | by intros [_ ?]%Forall_cons_1].
Qed.

Lemma textInstead_marked (t : string) : includes (textInsteadPrefix +:+ t) textMarker = true.
Proof.
  apply includes_iff. exists "", (" instead of an image: " +:+ t). reflexivity.
Qed.

Lemma catchGenerate_error (error : Thrown) : exists message, catchGenerate error = ErrorObj message.
Proof.
  unfold catchGenerate. destruct (errorMessageOf error) as [m|]; [|eauto].
  destruct (includes m textMarker); eauto.
Qed.

(** The client throws [Error] objects only. *)
Lemma generate_throws_error (ai : Upstream) (mains insps : list string) (userPrompt : string)
    (e : Thrown) :
  (generateVibeBasedImage ai mains insps userPrompt).2 = Throw e ->
  exists message, e = ErrorObj message.
Proof.
  unfold generateVibeBasedImage.
  destruct (tryGenerate ai mains insps (textPromptOf userPrompt)) as [evs [url|error]];
    simpl; [done|].
  intros [= <-]. apply catchGenerate_error.
Qed.

(** The events of a run of the client: none (an image was malformed), or
    those of one run of the retry loop. *)
Lemma generate_events (ai : Upstream) (mains insps : list string) (userPrompt : string) :
  (generateVibeBasedImage ai mains insps userPrompt).1 = []
  \/ exists parts,
       (generateVibeBasedImage ai mains insps userPrompt).1 = (callGeminiWithRetry ai parts).1.
Proof.
  unfold generateVibeBasedImage, tryGenerate.
  destruct (mapDataUrls mains) as [mp|]; [|by left].
  destruct (mapDataUrls insps) as [ip|]; [|by left].
  right. eexists. destruct (callGeminiWithRetry ai _) as [evs r] eqn:E.
  rewrite E. simpl. by destruct (r ≫= processGeminiResponse).
Qed.

(** A delay is only ever waited before a further attempt. *)
Lemma backoff_only_before_retry (ai : Upstream) (mains insps : list string)
    (userPrompt : string) :
  let evs := (generateVibeBasedImage ai mains insps userPrompt).1 in
  delaysPrecedeCalls evs /\ forall ms, last evs ≠ Some (Sleep ms).
Proof.
  cbv zeta. destruct (generate_events ai mains insps userPrompt) as [->|[parts ->]].
  - split; [exact I | done].
  - destruct (retry_trace_shape ai parts) as (H1 & _ & _ & [evs' H2] & _).
    split; [exact H1|]. intros ms. cbv zeta in H2. rewrite H2, last_snoc. congruence.
Qed.

(** C1. A call of the client whose first two upstream attempts fail with
    a transient error and whose third one returns a response with an
    image returns that image. It makes exactly three upstream attempts
    and waits exactly two delays: 1000 ms before the second attempt and
    2000 ms before the third. In every run of the client, a delay is
    followed at once by a further attempt, and is never the last event. *)
Theorem retry_twice_then_success
    (ai : Upstream) (mains insps : list string) (userPrompt : string)
    (subjects styles : list ImageAsset)
    (response : GenerateContentResponse) (part : Part) (blob : Blob) :
  Forall2 EmbeddedDataFormat mains subjects ->
  Forall2 EmbeddedDataFormat insps styles ->
  isTransient (ai 1%Z (requestOf userPrompt subjects styles)) ->
  isTransient (ai 2%Z (requestOf userPrompt subjects styles)) ->
  ai 3%Z (requestOf userPrompt subjects styles) = Return response ->
  imagePartOf response = Some part ->
  inlineData part = Some blob ->
  generateVibeBasedImage ai mains insps userPrompt
  = ([Call (requestOf userPrompt subjects styles); Sleep 1000;
      Call (requestOf userPrompt subjects styles); Sleep 2000;
      Call (requestOf userPrompt subjects styles)],
     Return ("data:" +:+ template (mimeType blob) +:+ ";base64," +:+ template (data blob)))
  /\ attempts (generateVibeBasedImage ai mains insps userPrompt).1 = 3
  /\ delays (generateVibeBasedImage ai mains insps userPrompt).1 = [1000; 2000]%Z
  /\ (forall ai' mains' insps' userPrompt',
        delaysPrecedeCalls (generateVibeBasedImage ai' mains' insps' userPrompt').1
        /\ forall ms,
             last (generateVibeBasedImage ai' mains' insps' userPrompt').1 ≠ Some (Sleep ms)).
Proof.
  intros Hm Hi H1 H2 H3 Hpart Hblob.
  assert (generateVibeBasedImage ai mains insps userPrompt
          = ([Call (requestOf userPrompt subjects styles); Sleep 1000;
              Call (requestOf userPrompt subjects styles); Sleep 2000;
              Call (requestOf userPrompt subjects styles)],
             Return ("data:" +:+ template (mimeType blob) +:+ ";base64,"
                     +:+ template (data blob)))) as E.
  { rewrite (generate_run ai mains insps userPrompt subjects styles Hm Hi).
    rewrite (retry_third_attempt ai _ _ H1 H2 H3). cbn [fst snd mbind Completion_bind].
    by rewrite (processGeminiResponse_image _ _ _ Hpart Hblob). }
  rewrite E. split; [done|]. split; [done|]. split; [done|].
  intros. apply backoff_only_before_retry.
Qed.

Lemma example_images :
  Forall2 EmbeddedDataFormat [pngUrl] [pngAsset]
  /\ Forall2 EmbeddedDataFormat [jpegUrl] [jpegAsset].
Proof.
  split; (constructor; [|constructor]); apply matchDataUrl_format; reflexivity.
Qed.

Lemma retry_twice_then_success_witness :
  generateVibeBasedImage flakyUpstream [pngUrl] [jpegUrl] ""
  = ([Call (requestOf "" [pngAsset] [jpegAsset]); Sleep 1000;
      Call (requestOf "" [pngAsset] [jpegAsset]); Sleep 2000;
      Call (requestOf "" [pngAsset] [jpegAsset])],
     Return "data:image/png;base64,R0VO").
Proof.
  refine (proj1 (retry_twice_then_success flakyUpstream [pngUrl] [jpegUrl] ""
                   [pngAsset] [jpegAsset] imageResponse generatedPart generatedBlob
                   (proj1 example_images) (proj2 example_images) _ _ _ _ _)).
  - exists (ErrorObj "INTERNAL"), "INTERNAL". repeat split; reflexivity.
  - exists (ErrorObj "INTERNAL"), "INTERNAL". repeat split; reflexivity.
  - reflexivity.
  - reflexivity.
  - reflexivity.
Defined.

(** C2 (amended). A call of the client whose upstream attempts all fail
    with a transient error makes exactly three attempts, with delays of
    1000 ms and 2000 ms between them, and no fourth one, and then throws
    an error. Provided the message of the last failure does not contain
    the phrase by which the client recognises a text response, the error
    thrown is made of a fixed prefix followed by that message. *)
Theorem retry_exhaustion
    (ai : Upstream) (mains insps : list string) (userPrompt : string)
    (subjects styles : list ImageAsset) (e3 : Thrown) (m3 : string) :
  Forall2 EmbeddedDataFormat mains subjects ->
  Forall2 EmbeddedDataFormat insps styles ->
  isTransient (ai 1%Z (requestOf userPrompt subjects styles)) ->
  isTransient (ai 2%Z (requestOf userPrompt subjects styles)) ->
  isTransient (ai 3%Z (requestOf userPrompt subjects styles)) ->
  ai 3%Z (requestOf userPrompt subjects styles) = Throw e3 ->
  errorMessageOf e3 = Some m3 ->
  (generateVibeBasedImage ai mains insps userPrompt).1
  = [Call (requestOf userPrompt subjects styles); Sleep 1000;
     Call (requestOf userPrompt subjects styles); Sleep 2000;
     Call (requestOf userPrompt subjects styles)]
  /\ attempts (generateVibeBasedImage ai mains insps userPrompt).1 = 3
  /\ (exists message,
        (generateVibeBasedImage ai mains insps userPrompt).2 = Throw (ErrorObj message))
  /\ (includes m3 textMarker = false ->
      (generateVibeBasedImage ai mains insps userPrompt).2
      = Throw (ErrorObj (failedPrefix +:+ m3))).
Proof.
  intros Hm Hi H1 H2 _ H3 Hm3.
  rewrite (generate_run ai mains insps userPrompt subjects styles Hm Hi).
  rewrite (retry_third_attempt ai _ _ H1 H2 H3). rewrite Hm3.
  cbn [fst snd mbind Completion_bind]. split; [done|]. split; [done|]. split.
  - destruct (catchGenerate_error e3) as [message ->]. by exists message.
  - intros Hno. unfold catchGenerate. by rewrite Hm3, Hno.
Qed.

Lemma retry_exhaustion_witness :
  (generateVibeBasedImage downUpstream [pngUrl] [jpegUrl] "").1
  = [Call (requestOf "" [pngAsset] [jpegAsset]); Sleep 1000;
     Call (requestOf "" [pngAsset] [jpegAsset]); Sleep 2000;
     Call (requestOf "" [pngAsset] [jpegAsset])]
  /\ (generateVibeBasedImage downUpstream [pngUrl] [jpegUrl] "").2
     = Throw (ErrorObj (failedPrefix +:+ "503 Service Unavailable")).
Proof.
  destruct (retry_exhaustion downUpstream [pngUrl] [jpegUrl] ""
              [pngAsset] [jpegAsset] (ErrorObj "503 Service Unavailable")
              "503 Service Unavailable"
              (proj1 example_images) (proj2 example_images))
    as (Hevs & _ & _ & Herr).
  - eexists _, _. repeat split; reflexivity.
  - eexists _, _. repeat split; reflexivity.
  - eexists _, _. repeat split; reflexivity.
  - reflexivity.
  - reflexivity.
  - split; [exact Hevs | apply Herr; reflexivity].
Defined.

(** C2, as stated, fails: every attempt fails with a transient error,
    and the error thrown in the end does not contain the message of the
    last failure. *)
Lemma retry_exhaustion_counterexample :
  (forall n, isTransient (echoUpstream n (requestOf "" [pngAsset] [jpegAsset])))
  /\ (generateVibeBasedImage echoUpstream [pngUrl] [jpegUrl] "").2
     = Throw (ErrorObj vibeMessage)
  /\ includes vibeMessage echoMessage = false.
Proof.
  split; [|split].
  - intros n. exists (ErrorObj echoMessage), echoMessage. repeat split; reflexivity.
  - vm_compute. reflexivity.
  - vm_compute. reflexivity.
Qed.

(** C3. A call of the client whose first upstream attempt fails with an
    error that is not classified as transient fails at once: it makes
    exactly one upstream attempt, waits no delay, and throws an error. *)
Theorem permanent_failure_no_retry
    (ai : Upstream) (mains insps : list string) (userPrompt : string)
    (subjects styles : list ImageAsset) :
  Forall2 EmbeddedDataFormat mains subjects ->
  Forall2 EmbeddedDataFormat insps styles ->
  isPermanent (ai 1%Z (requestOf userPrompt subjects styles)) ->
  exists message,
    generateVibeBasedImage ai mains insps userPrompt
    = ([Call (requestOf userPrompt subjects styles)], Throw (ErrorObj message))
    /\ attempts (generateVibeBasedImage ai mains insps userPrompt).1 = 1
    /\ delays (generateVibeBasedImage ai mains insps userPrompt).1 = [].
Proof.
  intros Hm Hi H1.
  rewrite (generate_run ai mains insps userPrompt subjects styles Hm Hi).
  destruct (retry_first_permanent ai _ H1) as [e ->].
  cbn [fst snd mbind Completion_bind].
  destruct (catchGenerate_error e) as [message ->]. by exists message.
Qed.

Lemma permanent_failure_no_retry_witness :
  exists message,
    generateVibeBasedImage deniedUpstream [pngUrl] [jpegUrl] ""
    = ([Call (requestOf "" [pngAsset] [jpegAsset])], Throw (ErrorObj message)).
Proof.
  destruct (permanent_failure_no_retry deniedUpstream [pngUrl] [jpegUrl] ""
              [pngAsset] [jpegAsset] (proj1 example_images) (proj2 example_images))
    as (message & E & _).
  - exists (ErrorObj "API key not valid"). split; reflexivity.
  - exists message. exact E.
Defined.

Lemma imagePartOf_first (response : GenerateContentResponse) (part : Part) :
  imagePartOf response = Some part <->
  exists ps i, firstCandidateParts response = Some ps
               /\ ps !! i = Some part /\ hasInlineData part = true
               /\ forall j q, j < i -> ps !! j = Some q -> hasInlineData q = false.
Proof.
  unfold imagePartOf. destruct (firstCandidateParts response) as [ps|]; simpl.
  - rewrite find_first. split.
    + intros (i & H). by exists ps, i.
    + intros (ps' & i & [= <-] & H). by exists i.
  - split; [done|]. by intros (ps & i & ? & _).
Qed.

Lemma imagePartOf_none (response : GenerateContentResponse) :
  imagePartOf response = None <->
  forall ps, firstCandidateParts response = Some ps ->
             Forall (fun q => hasInlineData q = false) ps.
Proof.
  unfold imagePartOf. destruct (firstCandidateParts response) as [ps|]; simpl.
  - rewrite find_none. split; [by intros H ps' [= <-] | by intros H; apply H].
  - split; [done | done].
Qed.

(** C4 (amended). The response extractor returns, as a data URL, the
    first content part of the response that carries inline image data.
    When there is no such part it throws an error that says that the
    model responded with text instead of an image and that quotes the
    text of the response, or a fixed notice when there is none. The
    client makes no further upstream attempt after such a response: its
    events are those of the retry loop that returned the response. The
    error that the client itself throws for it is a fixed message. *)
Theorem response_extraction (response : GenerateContentResponse) :
  (forall part,
     imagePartOf response = Some part <->
     exists ps i, firstCandidateParts response = Some ps
                  /\ ps !! i = Some part /\ hasInlineData part = true
                  /\ forall j q, j < i -> ps !! j = Some q -> hasInlineData q = false)
  /\ (forall part blob,
        imagePartOf response = Some part -> inlineData part = Some blob ->
        processGeminiResponse response
        = Return ("data:" +:+ template (mimeType blob) +:+ ";base64,"
                  +:+ template (data blob)))
  /\ (imagePartOf response = None <->
      processGeminiResponse response
      = Throw (ErrorObj (textInsteadPrefix
                         +:+ quoted (shownText (responseText response)))))
  /\ (forall ai mains insps userPrompt subjects styles,
        Forall2 EmbeddedDataFormat mains subjects ->
        Forall2 EmbeddedDataFormat insps styles ->
        imagePartOf response = None ->
        (callGeminiWithRetry ai (payloadOf userPrompt subjects styles)).2
        = Return response ->
        generateVibeBasedImage ai mains insps userPrompt
        = ((callGeminiWithRetry ai (payloadOf userPrompt subjects styles)).1,
           Throw (ErrorObj vibeMessage)))
  /\ (forall ai mains insps userPrompt subjects styles,
        Forall2 EmbeddedDataFormat mains subjects ->
        Forall2 EmbeddedDataFormat insps styles ->
        imagePartOf response = None ->
        ai 1%Z (requestOf userPrompt subjects styles) = Return response ->
        generateVibeBasedImage ai mains insps userPrompt
        = ([Call (requestOf userPrompt subjects styles)], Throw (ErrorObj vibeMessage))).
Proof.
  assert (forall ai mains insps userPrompt subjects styles,
            Forall2 EmbeddedDataFormat mains subjects ->
            Forall2 EmbeddedDataFormat insps styles ->
            imagePartOf response = None ->
            (callGeminiWithRetry ai (payloadOf userPrompt subjects styles)).2
            = Return response ->
            generateVibeBasedImage ai mains insps userPrompt
            = ((callGeminiWithRetry ai (payloadOf userPrompt subjects styles)).1,
               Throw (ErrorObj vibeMessage))) as Hgen.
  { intros ai mains insps userPrompt subjects styles Hm Hi Hnone Hret.
    rewrite (generate_run ai mains insps userPrompt subjects styles Hm Hi), Hret.
    cbn [mbind Completion_bind]. rewrite (processGeminiResponse_text _ Hnone).
    unfold catchGenerate. cbn [errorMessageOf]. by rewrite textInstead_marked. }
  split; [apply imagePartOf_first|]. split; [apply processGeminiResponse_image|].
  split; [|split; [exact Hgen|]].
  - split; [apply processGeminiResponse_text|].
    unfold processGeminiResponse.
    destruct (imagePartOf response) as [part|] eqn:E; [|done].
    apply imagePartOf_first in E as (ps & i & _ & _ & Hp & _).
    unfold hasInlineData in Hp. simpl. by destruct (inlineData part).
  - intros ai mains insps userPrompt subjects styles Hm Hi Hnone H1.
    pose proof (retry_first_success ai _ _ H1) as E.
    rewrite (Hgen ai mains insps userPrompt subjects styles Hm Hi Hnone); by rewrite E.
Qed.

(** C4, as stated, fails for the error of the client: the response has
    no image part and its text is [a cat]; the client makes one attempt
    and throws an error that neither quotes that text nor says that the
    model responded with text. *)
Lemma response_extraction_counterexample :
  imagePartOf textResponse = None
  /\ responseText textResponse = Some "a cat"
  /\ generateVibeBasedImage textUpstream [pngUrl] [jpegUrl] ""
     = ([Call (requestOf "" [pngAsset] [jpegAsset])], Throw (ErrorObj vibeMessage))
  /\ includes vibeMessage "a cat" = false
  /\ includes vibeMessage "text" = false.
Proof.
  split; [reflexivity|]. split; [reflexivity|].
  split; [vm_compute; reflexivity|]. split; vm_compute; reflexivity.
Qed.

Lemma trim_empty : trim "" = "".
Proof. reflexivity. Qed.

Lemma textPromptOf_blank (userPrompt : string) :
  trim userPrompt = "" -> textPromptOf userPrompt = basePrompt.
Proof.
  intros H. unfold textPromptOf. rewrite H.
  rewrite (bool_decide_eq_true_2 ("" = "")) by done. by rewrite andb_false_r.
Qed.

Lemma textPromptOf_instruction (userPrompt : string) :
  trim userPrompt ≠ "" ->
  textPromptOf userPrompt = basePrompt +:+ userPromptIntro +:+ trim userPrompt.
Proof.
  intros H. unfold textPromptOf.
  assert (userPrompt ≠ "") as Hne by (intros ->; by apply H).
  by rewrite !bool_decide_eq_false_2.
Qed.

(** C8 (amended). With well-formed subject and style images, every
    upstream call of a run of the client (there is at least one) carries
    the same request: the model name, the image and text response
    modalities, and as contents the encoded subjects in input order, then
    the encoded styles in input order, then one text part. The text is
    the fixed task description, followed, exactly when the instruction of
    the user has a character other than white space, by a fixed
    introduction and the instruction without its leading and trailing
    white space. *)
Theorem request_payload
    (ai : Upstream) (mains insps : list string) (userPrompt : string)
    (subjects styles : list ImageAsset) :
  Forall2 EmbeddedDataFormat mains subjects ->
  Forall2 EmbeddedDataFormat insps styles ->
  (exists evs,
     (generateVibeBasedImage ai mains insps userPrompt).1
     = Call (requestOf userPrompt subjects styles) :: evs)
  /\ Forall (fun e => isCall e = true -> e = Call (requestOf userPrompt subjects styles))
            (generateVibeBasedImage ai mains insps userPrompt).1
  /\ requestOf userPrompt subjects styles
     = {| model := "gemini-2.5-flash-image-preview";
          contents := (inlinePart <$> subjects) ++ (inlinePart <$> styles)
                      ++ [{| inlineData := None;
                             text := Some (basePrompt
                                           +:+ (if bool_decide (trim userPrompt = "") then ""
                                                else userPromptIntro +:+ trim userPrompt)) |}];
          responseModalities := [IMAGE; TEXT] |}.
Proof.
  intros Hm Hi.
  rewrite (generate_run ai mains insps userPrompt subjects styles Hm Hi).
  cbn [fst].
  destruct (retry_trace_shape ai (payloadOf userPrompt subjects styles))
    as (_ & Hall & _ & _ & Hfirst).
  split; [exact Hfirst|]. split; [exact Hall|].
  unfold requestOf, request, payloadOf, allPartsOf. do 5 f_equal.
  destruct (decide (trim userPrompt = "")) as [E|E].
  - rewrite (textPromptOf_blank _ E), bool_decide_eq_true_2 by done.
    by rewrite append_nil_r.
  - by rewrite (textPromptOf_instruction _ E), bool_decide_eq_false_2.
Qed.

Lemma request_payload_witness :
  exists evs,
    (generateVibeBasedImage flakyUpstream [pngUrl] [jpegUrl] " in the rain ").1
    = Call (requestOf " in the rain " [pngAsset] [jpegAsset]) :: evs.
Proof.
  exact (proj1 (request_payload flakyUpstream [pngUrl] [jpegUrl] " in the rain "
                  [pngAsset] [jpegAsset] (proj1 example_images) (proj2 example_images))).
Defined.

(** C8, as stated, fails: the instruction of the user is not empty, and
    the text sent upstream is the task description alone. *)
Lemma request_payload_counterexample :
  " " ≠ ""
  /\ textPromptOf " " = basePrompt
  /\ (generateVibeBasedImage textUpstream [pngUrl] [jpegUrl] " ").1
     = [Call (request [inlinePart pngAsset; inlinePart jpegAsset;
                       {| inlineData := None; text := Some basePrompt |}])].
Proof.
  split; [done|]. split; [reflexivity|]. vm_compute. reflexivity.
Qed.

(** ** The slots *)

Import App.

Section Arrays.

Context {A : Type}.
Implicit Types (l : list (Element A)) (v : A).

Lemma length_spread l : length (spread l) = length l.
Proof. unfold spread. by rewrite length_fmap. Qed.

(** The copy reads as the array does. *)
Lemma arrayGet_spread l j : arrayGet (spread l) j = arrayGet l j.
Proof.
  unfold arrayGet, spread. rewrite list_lookup_fmap.
  by destruct (l !! j) as [[| |v]|].
Qed.

Lemma arraySet_in_range l i v :
  i < length l -> arraySet l i v = <[i := Value v]> (spread l).
Proof. intros H. unfold arraySet. by destruct (decide (i < length l)). Qed.

Lemma arraySet_length l i v : length (arraySet l i v) = max (length l) (S i).
Proof.
  unfold arraySet. destruct (decide (i < length l)).
  - rewrite length_insert, length_spread. lia.
  - rewrite !length_app, length_replicate, length_spread. simpl. lia.
Qed.

(** The assignment is read back at its index ... *)
Lemma arrayGet_arraySet l i v : arrayGet (arraySet l i v) i = Some v.
Proof.
  unfold arrayGet, arraySet. destruct (decide (i < length l)).
  - rewrite list_lookup_insert_eq; [done|]. by rewrite length_spread.
  - rewrite lookup_app_r by (rewrite length_spread; lia).
    rewrite lookup_app_r; rewrite length_spread, length_replicate; [|lia].
    by replace (i - length l - (i - length l)) with 0 by lia.
Qed.

(** ... and leaves what is read at every other index as it was. *)
Lemma arrayGet_arraySet_ne l i j v : j ≠ i -> arrayGet (arraySet l i v) j = arrayGet l j.
Proof.
  intros Hne. rewrite <- (arrayGet_spread l j). unfold arrayGet, arraySet.
  destruct (decide (i < length l)).
  - by rewrite list_lookup_insert_ne.
  - destruct (decide (j < length l)).
    + by rewrite lookup_app_l by (rewrite length_spread; lia).
    + rewrite (lookup_ge_None_2 (spread l) j) by (rewrite length_spread; lia).
      rewrite lookup_app_r by (rewrite length_spread; lia). rewrite length_spread.
      destruct (decide (j - length l < i - length l)).
      * rewrite lookup_app_l by (rewrite length_replicate; lia).
        by rewrite lookup_replicate_2.
      * rewrite lookup_ge_None_2; [done|].
        rewrite length_app, length_replicate. simpl. lia.
Qed.

Lemma arrayGet_replicate (n j : nat) v : j < n -> arrayGet (replicate n (Value v)) j = Some v.
Proof. intros H. unfold arrayGet. by rewrite lookup_replicate_2. Qed.

Lemma arrayGet_Some l j v : arrayGet l j = Some v -> j < length l.
Proof.
  unfold arrayGet. destruct (l !! j) as [e|] eqn:E; [|done].
  intros _. by apply lookup_lt_Some in E.
Qed.

End Arrays.

Section Writers.

Lemma removeFirst_perm (i : nat) (l : list nat) : i ∈ l -> l ≡ₚ i :: removeFirst i l.
Proof.
  induction l as [|j l IH]; [by intros ?%elem_of_nil|]. simpl.
  destruct (decide (i = j)) as [->|Hne]; [done|].
  intros [?|Hin]%elem_of_cons; [done|]. rewrite (IH Hin) at 1. apply Permutation_swap.
Qed.



(** A call of a batch settles: it leaves the calls in flight. *)
Lemma concat_removeFirst (bs : list (list nat)) (b i : nat) (l : list nat) :
  bs !! b = Some l -> i ∈ l -> concat bs ≡ₚ i :: concat (<[b := removeFirst i l]> bs).
Proof.
  revert b; induction bs as [|l0 bs IH]; intros b Hb Hi; [done|].
  destruct b as [|b]; simpl in *.
  - injection Hb as ->. by rewrite (removeFirst_perm i l Hi) at 1.
  - rewrite (IH b Hb Hi) at 1. by rewrite Permutation_middle.
Qed.

Lemma elem_of_concat (bs : list (list nat)) (j : nat) :
  j ∈ concat bs <-> exists l, j ∈ l /\ l ∈ bs.
Proof.
  induction bs as [|l0 bs IH]; simpl.
  - split; [by intros ?%elem_of_nil | by intros (l & _ & ?%elem_of_nil)].
  - rewrite elem_of_app, IH. split.
    + intros [H|(l & Hj & Hl)]; [exists l0 | exists l]; (split; [done|]);
        apply elem_of_cons; auto.
    + intros (l & Hj & [->|Hl]%elem_of_cons); [by left | right; eauto].
Qed.


Lemma callsOf_Some (b : nat) (s : State) (i : nat) :
  i ∈ callsOf b s -> batches s !! b = Some (callsOf b s).
Proof.
  unfold callsOf. destruct (batches s !! b) as [l|]; [done|]. by intros ?%elem_of_nil.
Qed.

Lemma callsOf_writers (b : nat) (s : State) (i : nat) : i ∈ callsOf b s -> i ∈ writers s.
Proof.
  intros Hi. pose proof (callsOf_Some b s i Hi) as E. unfold writers.
  apply elem_of_app; left. apply elem_of_concat. exists (callsOf b s).
  split; [done|]. by apply list_elem_of_lookup_2 in E.
Qed.


End Writers.

Section Slots.

Lemma isPendingAt_true (l : list (Element GeneratedImage)) (index : nat) :
  isPendingAt l index = true <-> isPending (arrayGet l index).
Proof.
  unfold isPendingAt, isPending. rewrite bool_decide_eq_true.
  destruct (arrayGet l index) as [img|]; simpl.
  - split; [intros [= H]; eauto | intros (img' & [= <-] & H); by rewrite H].
  - split; [done | by intros (? & ? & _)].
Qed.

Lemma pending_not_terminal (g : option GeneratedImage) : isPending g -> isTerminal g -> False.
Proof. intros (a & -> & Ha) (b & [= <-] & [Hb|Hb]); congruence. Qed.

Lemma pendingImage_pending : isPending (Some pendingImage).
Proof. by exists pendingImage. Qed.

(** A settled call always leaves done or error: a failure becomes the
    error state of the slot. *)
Lemma slotResult_terminal (r : Completion string) : isTerminal (Some (slotResult r)).
Proof. exists (slotResult r). split; [done|]. destruct r; simpl; auto. Qed.

Lemma slotResult_failure (e : Thrown) :
  status (slotResult (Throw e)) = StError
  /\ exists message, error (slotResult (Throw e)) = Some message.
Proof. split; [done|]. simpl. eauto. Qed.

Lemma batchSettled_fields (b i : nat) (r : Completion string) (s : State) :
  generatedImages (batchSettled b i r s) = arraySet (generatedImages s) i (slotResult r)
  /\ batches (batchSettled b i r s) = <[b := removeFirst i (callsOf b s)]> (batches s)
  /\ regenerating (batchSettled b i r s) = regenerating s
  /\ issued (batchSettled b i r s) = issued s
  /\ appState (batchSettled b i r s)
     = (if decide (removeFirst i (callsOf b s) = []) then ResultsShown else appState s)
  /\ generationCount (batchSettled b i r s) = generationCount s
  /\ uploadedImages (batchSettled b i r s) = uploadedImages s
  /\ inspirationImages (batchSettled b i r s) = inspirationImages s.
Proof.
  unfold batchSettled. by destruct (decide (removeFirst i (callsOf b s) = [])).
Qed.

Lemma regenerateSettled_fields (index : nat) (r : Completion string) (s : State) :
  generatedImages (regenerateSettled index r s)
  = arraySet (generatedImages s) index (slotResult r)
  /\ batches (regenerateSettled index r s) = batches s
  /\ regenerating (regenerateSettled index r s) = removeFirst index (regenerating s)
  /\ issued (regenerateSettled index r s) = issued s
  /\ appState (regenerateSettled index r s) = appState s.
Proof. done. Qed.

Lemma handleRegenerateSlot_cases (view s : State) (index : nat) :
  (regenerates view index
   /\ handleRegenerateSlot view index s
      = setRegenerating (regenerating s ++ [index])
          (issue [callOf view]
             (setGeneratedImages (fun prev => arraySet prev index pendingImage) s)))
  \/ (~ regenerates view index /\ handleRegenerateSlot view index s = s).
Proof.
  unfold handleRegenerateSlot, regenerates.
  destruct (uploadedImages view) as [|x xs]; [right; split; [by intros [? _] | done]|].
  destruct (inspirationImages view) as [|y ys]; [right; split; [by intros (_ & ? & _) | done]|].
  simpl. destruct (isPendingAt (generatedImages view) index).
  - right. split; [by intros (_ & _ & ?) | done].
  - left. done.
Qed.

(** The click on the generate button, in a component that holds photos
    of both kinds. *)
Lemma handleGenerateClick_fields (s : State) :
  uploadedImages s ≠ [] -> inspirationImages s ≠ [] -> 1 <= generationCount s ->
  generatedImages (handleGenerateClick s s) = replicate (generationCount s) (Value pendingImage)
  /\ batches (handleGenerateClick s s) = batches s ++ [seq 0 (generationCount s)]
  /\ regenerating (handleGenerateClick s s) = regenerating s
  /\ appState (handleGenerateClick s s) = Generating
  /\ issued (handleGenerateClick s s)
     = issued s ++ replicate (generationCount s) (callOf s)
  /\ generationCount (handleGenerateClick s s) = generationCount s
  /\ uploadedImages (handleGenerateClick s s) = uploadedImages s
  /\ inspirationImages (handleGenerateClick s s) = inspirationImages s.
Proof.
  intros Hup Hin Hpos. unfold handleGenerateClick.
  rewrite (bool_decide_eq_false_2 (length (uploadedImages s) = 0))
    by (destruct (uploadedImages s); done).
  rewrite (bool_decide_eq_false_2 (length (inspirationImages s) = 0))
    by (destruct (inspirationImages s); done).
  simpl. destruct (decide (generationCount s = 0)); [lia|]. by simpl.
Qed.

Lemma generate_click (s0 : State) (count : nat) :
  ready s0 -> generationCount s0 = count -> 1 <= count ->
  step GenerateClick s0 = Some (handleGenerateClick s0 s0)
  /\ generatedImages (handleGenerateClick s0 s0) = replicate count (Value pendingImage)
  /\ issued (handleGenerateClick s0 s0) = issued s0 ++ replicate count (callOf s0).
Proof.
  intros (Hst & Hup & Hin & Hw) Hc Hpos. simpl.
  destruct (decide (appState s0 = PhotosUploaded)); [|done]. split; [done|].
  destruct (handleGenerateClick_fields s0 Hup Hin) as (Eg & _ & _ & _ & Ei & _); [lia|].
  by rewrite Eg, Ei, Hc.
Qed.

End Slots.

(** ** The claim on the regeneration of a slot *)

(** C5 (amended). For a collection and an index within it, in the render
    of the current state: a regeneration requested for a pending slot is
    ignored, and so is one requested while no subject image or no style
    image is held; the state is then unchanged. Otherwise, for a slot
    that is done or in error, the handler sets that slot to pending,
    makes exactly one call to the client and leaves every other slot as
    it was. When that call settles, done or error is written to that
    slot only, whatever the state then is, and no other call is made. *)
Theorem regenerate_slot (s : State) (index : nat) :
  index < length (generatedImages s) ->
  (isPending (slot s index) -> handleRegenerateSlot s index s = s)
  /\ (uploadedImages s = [] \/ inspirationImages s = [] ->
      handleRegenerateSlot s index s = s)
  /\ (isTerminal (slot s index) ->
      uploadedImages s ≠ [] -> inspirationImages s ≠ [] ->
      slot (handleRegenerateSlot s index s) index = Some pendingImage
      /\ (forall j, j ≠ index -> slot (handleRegenerateSlot s index s) j = slot s j)
      /\ length (generatedImages (handleRegenerateSlot s index s))
         = length (generatedImages s)
      /\ issued (handleRegenerateSlot s index s) = issued s ++ [callOf s]
      /\ regenerating (handleRegenerateSlot s index s) = regenerating s ++ [index])
  /\ (forall (t : State) (r : Completion string),
        index < length (generatedImages t) ->
        slot (regenerateSettled index r t) index = Some (slotResult r)
        /\ isTerminal (slot (regenerateSettled index r t) index)
        /\ (forall j, j ≠ index -> slot (regenerateSettled index r t) j = slot t j)
        /\ length (generatedImages (regenerateSettled index r t))
           = length (generatedImages t)
        /\ issued (regenerateSettled index r t) = issued t).
Proof.
  intros Hidx. split; [|split; [|split]].
  - intros Hp%isPendingAt_true.
    destruct (handleRegenerateSlot_cases s s index) as [[(_ & _ & Hnp) _]|[_ ->]];
      [congruence | done].
  - intros Hempty.
    destruct (handleRegenerateSlot_cases s s index) as [[(Hu & Hi & _) _]|[_ ->]];
      [by destruct Hempty | done].
  - intros Hterm Hu Hi.
    destruct (handleRegenerateSlot_cases s s index) as [[_ ->]|[Hno _]].
    + split; [apply arrayGet_arraySet|].
      split; [intros j Hj; by apply arrayGet_arraySet_ne|].
      split; [|done]. simpl. rewrite arraySet_length. lia.
    + exfalso. apply Hno. split; [done|]. split; [done|].
      destruct (isPendingAt (generatedImages s) index) eqn:E; [|done].
      apply isPendingAt_true in E. destruct (pending_not_terminal _ E Hterm).
  - intros t r Ht. split; [apply arrayGet_arraySet|].
    split; [unfold slot; simpl; rewrite arrayGet_arraySet; apply slotResult_terminal|].
    split; [intros j Hj; by apply arrayGet_arraySet_ne|].
    split; [|done]. simpl. rewrite arraySet_length. lia.
Qed.

Lemma regenerate_slot_witness :
  slot (handleRegenerateSlot shown 0 shown) 0 = Some pendingImage
  /\ slot (handleRegenerateSlot shown 0 shown) 1 = Some doneImage.
Proof.
  assert (0 < length (generatedImages shown)) as Hidx by (simpl; lia).
  destruct (regenerate_slot shown 0 Hidx) as (_ & _ & H & _).
  destruct H as (H0 & Hother & _).
  - exists doneImage. split; [reflexivity | left; reflexivity].
  - discriminate.
  - discriminate.
  - split; [exact H0|]. rewrite Hother by lia. reflexivity.
Defined.

(** C5, as stated, fails: slot 0 is done and regeneration is requested
    for it, but no subject image is held; the slot stays done and no call
    is made. *)
Lemma regenerate_slot_counterexample :
  0 < length (generatedImages shownWithoutPhotos)
  /\ slot shownWithoutPhotos 0 = Some doneImage
  /\ status doneImage = StDone
  /\ step (RegenerateClick 0) shownWithoutPhotos = Some shownWithoutPhotos
  /\ handleRegenerateSlot shownWithoutPhotos 0 shownWithoutPhotos = shownWithoutPhotos
  /\ issued shownWithoutPhotos = [].
Proof.
  split; [simpl; lia|]. split; [reflexivity|]. split; [reflexivity|].
  split; [vm_compute; reflexivity|]. split; reflexivity.
Qed.

Lemma fresh_ready (n : nat) : ready (fresh n).
Proof. by repeat split. Qed.

(** ** The events of the page and the slots *)

Section PageEvents.

Import Page.

Lemma step_slots (e : App.Event) (p p' : Page) :
  Page.step (Slots e) p = Some p' ->
  exists s, App.step e (core p) = Some s /\ p' = setCore (fun _ => s) p.
Proof.
  cbn [Page.step]. destruct (App.step e (core p)) as [s|]; [|done].
  intros [= <-]. eauto.
Qed.

(** What an event of the page does to the slots and to the calls in
    flight: nothing; or a call of a batch settles; or a regeneration
    settles; or a regeneration is requested; or a generation is started;
    or the page is reset. *)
Lemma step_cases (ev : Page.Event) (p p' : Page) :
  Page.step ev p = Some p' ->
  (generatedImages (core p') = generatedImages (core p)
   /\ batches (core p') = batches (core p)
   /\ regenerating (core p') = regenerating (core p))
  \/ (exists b i r,
        ev = Slots (BatchSettled b i r) /\ i ∈ callsOf b (core p)
        /\ generatedImages (core p') = arraySet (generatedImages (core p)) i (slotResult r)
        /\ batches (core p') = <[b := removeFirst i (callsOf b (core p))]> (batches (core p))
        /\ regenerating (core p') = regenerating (core p)
        /\ (removeFirst i (callsOf b (core p)) = [] -> appState (core p') = ResultsShown))
  \/ (exists index r,
        ev = Slots (RegenerateSettled index r) /\ index ∈ regenerating (core p)
        /\ generatedImages (core p')
           = arraySet (generatedImages (core p)) index (slotResult r)
        /\ batches (core p') = batches (core p)
        /\ regenerating (core p') = removeFirst index (regenerating (core p)))
  \/ (exists index,
        ev = Slots (RegenerateClick index) /\ regenerates (core p) index
        /\ index < length (generatedImages (core p))
        /\ generatedImages (core p') = arraySet (generatedImages (core p)) index pendingImage
        /\ batches (core p') = batches (core p)
        /\ regenerating (core p') = regenerating (core p) ++ [index])
  \/ (ev = Slots GenerateClick
      /\ generatedImages (core p')
         = replicate (generationCount (core p)) (Value pendingImage)
      /\ batches (core p') = batches (core p) ++ [seq 0 (generationCount (core p))]
      /\ regenerating (core p') = regenerating (core p))
  \/ (ev = Reset /\ generatedImages (core p') = []
      /\ batches (core p') = batches (core p)
      /\ regenerating (core p') = regenerating (core p)).
Proof.
  intros Hstep.
  destruct ev as [e| |text|n|onInput results|ty results|k|ty| | |canvas| |index|index|].
  - destruct (step_slots e p p' Hstep) as (s & Hs & ->). cbn [setCore core].
    destruct e as [|b i r|index|index r]; simpl in Hs.
    + destruct (decide (appState (core p) = PhotosUploaded)); [|done]. injection Hs as <-.
      unfold handleGenerateClick.
      destruct (bool_decide _ || bool_decide _); [by left|].
      do 4 right. left. split; [done|].
      by destruct (decide (generationCount (core p) = 0)).
    + destruct (decide (i ∈ callsOf b (core p))) as [Hi|]; [|done]. injection Hs as <-.
      destruct (batchSettled_fields b i r (core p)) as (Eg & Eb & Er & _ & Ea & _).
      right; left. exists b, i, r. rewrite Ea.
      repeat split; try done. intros ->. by destruct (decide ([] = [])).
    + destruct (decide _) as [[_ Hidx]|]; [|done]. injection Hs as <-.
      destruct (handleRegenerateSlot_cases (core p) (core p) index) as [[Hr ->]|[_ ->]];
        [|by left].
      do 3 right. left. by exists index.
    + destruct (decide (index ∈ regenerating (core p))) as [Hi|]; [|done].
      injection Hs as <-. do 2 right. left. by exists index, r.
  - simpl in Hstep. destruct (decide _); [|done]. injection Hstep as <-. by left.
  - injection Hstep as <-. by left.
  - simpl in Hstep. destruct (decide _); [|done]. injection Hstep as <-. by left.
  - injection Hstep as <-. left. unfold handlePaste.
    by repeat match goal with |- context [if ?b then _ else _] => destruct b end.
  - injection Hstep as <-. by left.
  - simpl in Hstep. destruct (reading p !! k) as [rd|]; [|done]. injection Hstep as <-.
    left. unfold readsSettled, pasteSettled, uploadSettled.
    destruct (target rd); by destruct (readAll _).
  - injection Hstep as <-. left. unfold handleAddPastedImages.
    by destruct (_ <=? _)%Z.
  - injection Hstep as <-. by left.
  - injection Hstep as <-. by left.
  - injection Hstep as <-. left. unfold handleCropConfirm.
    destruct (negb _ || negb _ || bool_decide _); [done|].
    destruct canvas; [|done]. destruct (cropQueue p) as [|item q]; [done|].
    by destruct (type item).
  - injection Hstep as <-. by left.
  - injection Hstep as <-. by left.
  - injection Hstep as <-. by left.
  - injection Hstep as <-. do 5 right. done.
Qed.

(** The same, for what is read at each index and for the list of the
    calls in flight. *)
Lemma step_writers (ev : Page.Event) (p p' : Page) :
  Page.step ev p = Some p' ->
  ((forall j, slot (core p') j = slot (core p) j)
   /\ length (generatedImages (core p')) = length (generatedImages (core p))
   /\ writers (core p') = writers (core p))
  \/ (exists i r,
        ((exists b, ev = Slots (BatchSettled b i r)) \/ ev = Slots (RegenerateSettled i r))
        /\ i ∈ writers (core p)
        /\ writers (core p) ≡ₚ i :: writers (core p')
        /\ generatedImages (core p') = arraySet (generatedImages (core p)) i (slotResult r))
  \/ (exists index,
        ev = Slots (RegenerateClick index) /\ regenerates (core p) index
        /\ index < length (generatedImages (core p))
        /\ writers (core p') ≡ₚ index :: writers (core p)
        /\ generatedImages (core p') = arraySet (generatedImages (core p)) index pendingImage)
  \/ (ev = Slots GenerateClick
      /\ generatedImages (core p')
         = replicate (generationCount (core p)) (Value pendingImage)
      /\ writers (core p') ≡ₚ writers (core p) ++ seq 0 (generationCount (core p)))
  \/ (ev = Reset /\ generatedImages (core p') = []
      /\ writers (core p') = writers (core p)).
Proof.
  intros Hstep. unfold writers, slot.
  destruct (step_cases ev p p' Hstep)
    as [(Eg & Eb & Er)|[(b & i & r & -> & Hi & Eg & Eb & Er & _)
       |[(index & r & -> & Hi & Eg & Eb & Er)|[(index & -> & Hr & Hidx & Eg & Eb & Er)
       |[(-> & Eg & Eb & Er)|(-> & Eg & Eb & Er)]]]]]; rewrite ?Eg, ?Eb, ?Er.
  - by left.
  - right; left. exists i, r. split; [left; by exists b|].
    split; [apply (callsOf_writers b), Hi|]. split; [|done].
    rewrite (concat_removeFirst _ b i _ (callsOf_Some b _ i Hi) Hi) at 1. done.
  - right; left. exists index, r. split; [by right|].
    split; [apply elem_of_app; by right|]. split; [|done].
    rewrite (removeFirst_perm index _ Hi) at 1. by rewrite Permutation_middle.
  - do 2 right; left. exists index. split; [done|]. split; [done|]. split; [done|].
    split; [|done]. rewrite app_assoc. by rewrite Permutation_app_comm.
  - do 3 right; left. split; [done|]. split; [done|].
    rewrite concat_app. simpl. rewrite app_nil_r.
    rewrite <- !app_assoc. apply Permutation_app_head, Permutation_app_comm.
  - do 4 right. done.
Qed.

Lemma run_app (evs1 evs2 : list Page.Event) (p : Page) :
  Page.run (evs1 ++ evs2) p = Page.run evs1 p ≫= Page.run evs2.
Proof.
  revert p; induction evs1 as [|ev evs1 IH]; intros p; simpl; [done|].
  destruct (Page.step ev p) as [p1|]; simpl; [apply IH | done].
Qed.



End PageEvents.

(** ** The collection of slots while only its own calls write it *)

Section Collection.

Import Page.

Variable count : nat.

(** A call in flight settles and writes its slot. *)
Lemma settle_inv (s s' : State) (i : nat) (r : Completion string) :
  Inv count s ->
  i ∈ writers s ->
  generatedImages s' = arraySet (generatedImages s) i (slotResult r) ->
  writers s ≡ₚ i :: writers s' ->
  Inv count s'
  /\ isPending (slot s i) /\ slot s' i = Some (slotResult r)
  /\ forall j, j ≠ i -> slot s' j = slot s j.
Proof.
  intros [Hlen Hslots Hnd Hw] Hi Himg Hperm.
  pose proof (proj1 (Hw i) Hi) as [Hlt Hpend].
  rewrite Hperm in Hnd. apply NoDup_cons in Hnd as [Hnotin Hnd'].
  assert (slot s' i = Some (slotResult r)) as Hsi
    by (unfold slot; rewrite Himg; apply arrayGet_arraySet).
  assert (forall j, j ≠ i -> slot s' j = slot s j) as Hsj
    by (intros j Hj; unfold slot; rewrite Himg; by apply arrayGet_arraySet_ne).
  split; [|by repeat split].
  split; try done.
  - rewrite Himg, arraySet_length. lia.
  - intros j Hj. destruct (decide (j = i)) as [->|Hne].
    + right. rewrite Hsi. apply slotResult_terminal.
    + rewrite (Hsj j Hne). by apply Hslots.
  - intros j. split.
    + intros Hj. assert (j ≠ i) as Hne by (intros ->; contradiction).
      rewrite (Hsj j Hne). apply Hw. rewrite Hperm. by apply elem_of_cons; right.
    + intros [Hj Hp]. destruct (decide (j = i)) as [->|Hne].
      * rewrite Hsi in Hp. destruct (pending_not_terminal _ Hp (slotResult_terminal r)).
      * rewrite (Hsj j Hne) in Hp.
        pose proof (proj2 (Hw j) (conj Hj Hp)) as Hin.
        rewrite Hperm in Hin. by apply elem_of_cons in Hin as [?|?].
Qed.

(** Every event that does not replace the collection keeps it well
    formed, and changes each slot only in one of the permitted ways. *)
Lemma step_inv (p p' : Page) (ev : Page.Event) :
  Inv count (core p) -> replacesCollection ev = false -> Page.step ev p = Some p' ->
  Inv count (core p')
  /\ forall j, j < count -> transition ev j (slot (core p) j) (slot (core p') j).
Proof.
  intros HI Hev Hstep. pose proof HI as [Hlen Hslots Hnd Hw].
  destruct (step_writers ev p p' Hstep)
    as [(Hs & El & Ew)|[(i & r & Hk & Hi & Hperm & Eg)|[(index & -> & Hr & Hidx & Hperm & Eg)
       |[(-> & _)|(-> & _)]]]]; [| | |done|done].
  - split; [|intros j _; left; apply Hs].
    split; rewrite ?El, ?Ew; try done.
    + intros j Hj. rewrite Hs. by apply Hslots.
    + intros j. rewrite Hs. apply Hw.
  - destruct (settle_inv (core p) (core p') i r HI Hi Eg Hperm) as (HI' & Hp & Hsi & Hsj).
    split; [done|]. intros j Hj. destruct (decide (j = i)) as [->|Hne].
    + right; left. rewrite Hsi. split; [done|]. split; [apply slotResult_terminal|].
      exists r. destruct Hk as [[b ->]| ->]; [left; by exists b | by right].
    + left. by apply Hsj.
  - destruct Hr as (_ & _ & Hnp).
    assert (~ isPending (slot (core p) index)) as Hnotp.
    { intros Hp. apply isPendingAt_true in Hp. congruence. }
    assert (index ∉ writers (core p)) as Hnotin by (intros Hin; apply Hnotp, Hw, Hin).
    assert (isTerminal (slot (core p) index)) as Hterm.
    { destruct (Hslots index) as [?|?]; [lia | contradiction | done]. }
    assert (slot (core p') index = Some pendingImage) as Hsi
      by (unfold slot; rewrite Eg; apply arrayGet_arraySet).
    assert (forall j, j ≠ index -> slot (core p') j = slot (core p) j) as Hsj
      by (intros j Hj; unfold slot; rewrite Eg; by apply arrayGet_arraySet_ne).
    split.
    + split.
      * rewrite Eg, arraySet_length. lia.
      * intros j Hj. destruct (decide (j = index)) as [->|Hne].
        -- left. rewrite Hsi. apply pendingImage_pending.
        -- rewrite (Hsj j Hne). by apply Hslots.
      * rewrite Hperm. by apply NoDup_cons.
      * intros j. rewrite Hperm, elem_of_cons. split.
        -- intros [->|Hin].
           ++ split; [lia|]. rewrite Hsi. apply pendingImage_pending.
           ++ assert (j ≠ index) as Hne by (intros ->; contradiction).
              rewrite (Hsj j Hne). by apply Hw.
        -- intros [Hj Hp]. destruct (decide (j = index)) as [->|Hne]; [by left|].
           right. rewrite (Hsj j Hne) in Hp. by apply Hw.
    + intros j Hj. destruct (decide (j = index)) as [->|Hne].
      * right; right. rewrite Hsi. split; [done|]. split; [apply pendingImage_pending | done].
      * left. by apply Hsj.
Qed.

Lemma run_inv (evs : list Page.Event) (p p' : Page) :
  Inv count (core p) -> forallb (fun ev => negb (replacesCollection ev)) evs = true ->
  Page.run evs p = Some p' -> Inv count (core p').
Proof.
  revert p; induction evs as [|ev evs IH]; intros p HI Hall Hrun; simpl in Hrun.
  - by injection Hrun as <-.
  - apply andb_true_iff in Hall as [Hev%negb_true_iff Hall].
    destruct (Page.step ev p) as [p1|] eqn:E; [|done]. simpl in Hrun.
    apply (IH p1); [|done|done]. by apply (step_inv p p1 ev).
Qed.

End Collection.

Section Generation.

Import Page.

(** The click on the generate button, on a page that holds photos of
    both kinds. *)
Lemma generate_click_page (p0 : Page) (count : nat) :
  appState (core p0) = PhotosUploaded ->
  uploadedImages (core p0) ≠ [] -> inspirationImages (core p0) ≠ [] ->
  generationCount (core p0) = count -> 1 <= count ->
  exists p1,
    Page.step (Slots GenerateClick) p0 = Some p1
    /\ generatedImages (core p1) = replicate count (Value pendingImage)
    /\ batches (core p1) = batches (core p0) ++ [seq 0 count]
    /\ regenerating (core p1) = regenerating (core p0)
    /\ appState (core p1) = Generating
    /\ covered (core p1)
    /\ (writers (core p0) = [] -> Inv count (core p1)).
Proof.
  intros Hst Hup Hin Hc Hpos.
  destruct (handleGenerateClick_fields (core p0) Hup Hin) as (Eg & Eb & Er & Ea & _);
    [lia|]. rewrite Hc in Eg, Eb.
  exists (setCore (fun _ => handleGenerateClick (core p0) (core p0)) p0).
  split.
  { cbn [Page.step App.step mbind option_bind].
    by destruct (decide (appState (core p0) = PhotosUploaded)). }
  cbn [setCore core]. split; [done|]. split; [done|]. split; [done|]. split; [done|].
  assert (forall j, j < count ->
            slot (handleGenerateClick (core p0) (core p0)) j = Some pendingImage) as Hs.
  { intros j Hj. unfold slot. rewrite Eg. by apply arrayGet_replicate. }
  assert (forall j, isPending (slot (handleGenerateClick (core p0) (core p0)) j) -> j < count)
    as Hlt.
  { intros j (img & Hg & _). unfold slot in Hg. rewrite Eg in Hg.
    apply arrayGet_Some in Hg. by rewrite length_replicate in Hg. }
  split.
  - intros j Hp. unfold writers. rewrite Eb, concat_app. simpl.
    apply elem_of_app; left. apply elem_of_app; right. rewrite app_nil_r.
    apply elem_of_seq. specialize (Hlt j Hp). lia.
  - intros Hw. unfold writers in Hw. apply app_eq_nil in Hw as [Hb Hr].
    assert (writers (handleGenerateClick (core p0) (core p0)) = seq 0 count) as Ew.
    { unfold writers. rewrite Eb, Er, Hr, concat_app, Hb. simpl. by rewrite !app_nil_r. }
    split.
    + by rewrite Eg, length_replicate.
    + intros j Hj. left. rewrite (Hs j Hj). apply pendingImage_pending.
    + rewrite Ew. apply NoDup_seq.
    + intros j. rewrite Ew, elem_of_seq. split.
      * intros [_ Hj]. split; [lia|]. rewrite Hs by lia. apply pendingImage_pending.
      * intros [Hj _]. lia.
Qed.


End Generation.
Section Batches.

Import Page.






End Batches.

(** ** The claims on the collection and on the batch *)

Section SlotClaims.

Import Page.

(** C7 (amended). A collection started by the generate button with a
    count from 1 to 8, subject and style images being held, has exactly
    that many slots, all pending. When no call is in flight at that
    click, then, whatever happens on the page afterwards short of a new
    generation or a reset, the length of the collection stays the count,
    every slot is pending, done or in error, and an event changes a slot
    only from pending to done or error, when a call for this slot
    settles, or from done or error to pending, when the regeneration of
    this slot is requested. *)
Theorem slot_collection_invariant (p0 : Page) (count : nat) :
  appState (core p0) = PhotosUploaded ->
  uploadedImages (core p0) ≠ [] -> inspirationImages (core p0) ≠ [] ->
  generationCount (core p0) = count -> 1 <= count <= 8 ->
  exists p1,
    Page.step (Slots GenerateClick) p0 = Some p1
    /\ generatedImages (core p1) = replicate count (Value pendingImage)
    /\ length (generatedImages (core p1)) = count
    /\ (forall j, j < count -> slot (core p1) j = Some pendingImage)
    /\ (writers (core p0) = [] ->
        forall evs p,
          forallb (fun ev => negb (replacesCollection ev)) evs = true ->
          Page.run evs p1 = Some p ->
          length (generatedImages (core p)) = count
          /\ (forall j, j < count ->
                isPending (slot (core p) j) \/ isTerminal (slot (core p) j))
          /\ forall ev p', replacesCollection ev = false -> Page.step ev p = Some p' ->
               length (generatedImages (core p')) = count
               /\ forall j, j < count ->
                    transition ev j (slot (core p) j) (slot (core p') j)).
Proof.
  intros Hst Hup Hin Hc [Hpos _].
  destruct (generate_click_page p0 count Hst Hup Hin Hc Hpos)
    as (p1 & Hstep & Eg & _ & _ & _ & _ & HI).
  exists p1. split; [done|]. split; [done|].
  split; [by rewrite Eg, length_replicate|]. split.
  - intros j Hj. unfold slot. rewrite Eg. by apply arrayGet_replicate.
  - intros Hw evs p Hkeep Hrun.
    pose proof (run_inv count evs p1 p (HI Hw) Hkeep Hrun) as HIs.
    split; [apply (inv_length _ _ HIs)|]. split; [apply (inv_slots _ _ HIs)|].
    intros ev p' Hev Hs. destruct (step_inv count p p' ev HIs Hev Hs) as [HIs' Htr].
    split; [apply (inv_length _ _ HIs') | exact Htr].
Qed.

Lemma slot_collection_invariant_witness :
  exists p1 p,
    Page.step (Slots GenerateClick) keyed = Some p1
    /\ generatedImages (core p1) = replicate 4 (Value pendingImage)
    /\ Page.run (Slots (BatchSettled 0 2 (Return "data:image/png;base64,R0VO"))
                 :: pasteAndCrop) p1 = Some p
    /\ length (generatedImages (core p)) = 4.
Proof.
  assert (1 <= 4 <= 8) as Hc by lia.
  assert (uploadedImages (core keyed) ≠ []) as Hup by discriminate.
  assert (inspirationImages (core keyed) ≠ []) as Hin by discriminate.
  destruct (slot_collection_invariant keyed 4 eq_refl Hup Hin eq_refl Hc)
    as (p1 & H1 & H2 & _ & _ & H5).
  assert (exists p, Page.run (Slots (BatchSettled 0 2 (Return "data:image/png;base64,R0VO"))
                              :: pasteAndCrop) p1 = Some p) as [p Hrun].
  { pose proof H1 as E. vm_compute in E. injection E as <-.
    eexists. vm_compute. reflexivity. }
  exists p1, p. split; [exact H1|]. split; [exact H2|]. split; [exact Hrun|].
  exact (proj1 (H5 eq_refl
                  (Slots (BatchSettled 0 2 (Return "data:image/png;base64,R0VO"))
                   :: pasteAndCrop) p eq_refl Hrun)).
Defined.

(** C7, as stated, fails. On a page that was set up from the start with
    one photo of each kind, four images are being generated when a pasted
    image is cropped and saved and two images are generated instead. The
    new collection has two pending slots. A call of the first batch then
    settles and writes slot 1, and the call of the second batch for
    slot 1 fails after it: without any regeneration, the slot goes from
    done to error. When instead the last call of the first batch settles,
    the collection grows to four elements. *)
Lemma slot_collection_invariant_counterexample :
  exists p1 p2 p3 p4,
    Page.run setUp mounted = Some keyed
    /\ Page.run secondBatch keyed = Some p1
    /\ generationCount (core p1) = 2
    /\ uploadedImages (core p1) ≠ [] /\ inspirationImages (core p1) ≠ []
    /\ generatedImages (core p1) = [Value pendingImage; Value pendingImage]
    /\ Page.step (Slots (BatchSettled 0 1 (Return "data:image/png;base64,R0VO"))) p1
       = Some p2
    /\ slot (core p2) 1 = Some doneImage
    /\ Page.step (Slots (BatchSettled 1 1 (Throw (ErrorObj vibeMessage)))) p2 = Some p3
    /\ slot (core p3) 1 = Some (slotResult (Throw (ErrorObj vibeMessage)))
    /\ status (slotResult (Throw (ErrorObj vibeMessage))) = StError
    /\ Page.step (Slots (BatchSettled 0 3 (Return "data:image/png;base64,R0VO"))) p1
       = Some p4
    /\ length (generatedImages (core p4)) = 4.
Proof.
  do 4 eexists. split; [vm_compute; reflexivity|].
  split; [vm_compute; reflexivity|]. split; [reflexivity|].
  split; [discriminate|]. split; [discriminate|]. split; [reflexivity|].
  split; [vm_compute; reflexivity|]. split; [reflexivity|].
  split; [vm_compute; reflexivity|]. split; [reflexivity|]. split; [reflexivity|].
  split; [vm_compute; reflexivity|]. reflexivity.
Qed.

End SlotClaims.
Section BatchClaim.

Import Page.




End BatchClaim.

(** * Further properties of the service *)

Import RetryPolicy.

Section RetrySchedule.

Variable ai : Upstream.
Variable parts : list Part.

Ltac loop_cases :=
  unfold callGeminiWithRetry; rewrite attempt_values; cbn [retryLoop];
  repeat match goal with
         | |- context [match ai ?n ?r with _ => _ end] => destruct (ai n r) as [?|?]
         | |- context [match errorMessageOf ?e with _ => _ end] =>
             destruct (errorMessageOf e) as [?|] eqn:?
         | |- context [isRetriableError ?m] => destruct (isRetriableError m) eqn:?
         end;
  cbn -[request].

Lemma retriable_transient (o : Completion GenerateContentResponse) :
  retriable o = true <-> isTransient o.
Proof.
  unfold retriable, isTransient. destruct o as [r|e].
  - split; [done | by intros (? & ? & ? & _)].
  - destruct (errorMessageOf e) as [m|] eqn:E.
    + split; [intros H; by exists e, m | intros (e' & m' & [= <-] & Hm & Hr); congruence].
    + split; [done | intros (e' & m' & [= <-] & Hm & _); congruence].
Qed.

Lemma loop_attempts :
  attempts (callGeminiWithRetry ai parts).1
  = 1 + (if retriable (ai 1%Z (request parts))
         then 1 + (if retriable (ai 2%Z (request parts)) then 1 else 0)
         else 0).
Proof.
  unfold retriable, callGeminiWithRetry. rewrite attempt_values. cbn [retryLoop].
  destruct (ai 1%Z (request parts)) as [r1|e1]; [done|].
  destruct (errorMessageOf e1) as [m1|]; [|done].
  destruct (isRetriableError m1); [|done]. cbn [andb Z.ltb Z.compare Pos.compare Pos.compare_cont].
  destruct (ai 2%Z (request parts)) as [r2|e2]; [done|].
  destruct (errorMessageOf e2) as [m2|]; [|done].
  destruct (isRetriableError m2); [|done]. cbn [andb].
  destruct (ai 3%Z (request parts)) as [r3|e3]; [done|].
  destruct (errorMessageOf e3) as [m3|]; [|done].
  by destruct (isRetriableError m3).
Qed.

Lemma loop_delays :
  delays (callGeminiWithRetry ai parts).1
  = take (attempts (callGeminiWithRetry ai parts).1 - 1) [1000; 2000]%Z.
Proof. loop_cases; reflexivity. Qed.

Ltac at_attempt :=
  cbn -[request Z.of_nat];
  try change (Z.of_nat 1) with 1%Z;
  try change (Z.of_nat 2) with 2%Z;
  try change (Z.of_nat 3) with 3%Z.

Lemma loop_ending :
  (callGeminiWithRetry ai parts).2
  = ending (ai (Z.of_nat (attempts (callGeminiWithRetry ai parts).1)) (request parts)).
Proof.
  unfold ending, callGeminiWithRetry. rewrite attempt_values. cbn [retryLoop].
  destruct (ai 1%Z (request parts)) as [r1|e1] eqn:E1; [at_attempt; by rewrite E1|].
  destruct (errorMessageOf e1) as [m1|] eqn:M1; [|at_attempt; by rewrite E1, M1].
  destruct (isRetriableError m1); [|at_attempt; by rewrite E1, M1].
  cbn [andb Z.ltb Z.compare Pos.compare Pos.compare_cont].
  destruct (ai 2%Z (request parts)) as [r2|e2] eqn:E2; [at_attempt; by rewrite E2|].
  destruct (errorMessageOf e2) as [m2|] eqn:M2; [|at_attempt; by rewrite E2, M2].
  destruct (isRetriableError m2); [|at_attempt; by rewrite E2, M2].
  cbn [andb].
  destruct (ai 3%Z (request parts)) as [r3|e3] eqn:E3; [at_attempt; by rewrite E3|].
  destruct (errorMessageOf e3) as [m3|] eqn:M3; [|at_attempt; by rewrite E3, M3].
  rewrite andb_false_r. at_attempt. by rewrite E3, M3.
Qed.

End RetrySchedule.

(** X1. Whatever the upstream does, [callGeminiWithRetry] makes one, two
    or three calls; it waits one delay less than it makes calls, the
    delays being 1000 ms and then 2000 ms; in total it never waits more
    than 3000 ms. *)
Theorem retry_schedule (ai : Upstream) (parts : list Part) :
  1 <= attempts (callGeminiWithRetry ai parts).1 <= 3
  /\ delays (callGeminiWithRetry ai parts).1
     = take (attempts (callGeminiWithRetry ai parts).1 - 1) [1000; 2000]%Z
  /\ (totalDelay (callGeminiWithRetry ai parts).1 <= 3000)%Z.
Proof.
  destruct (retry_trace_shape ai parts) as (_ & _ & Hn & _).
  pose proof (loop_delays ai parts) as Hd. cbv zeta in Hn.
  split; [exact Hn|]. split; [exact Hd|].
  unfold totalDelay. rewrite Hd.
  destruct (attempts (callGeminiWithRetry ai parts).1) as [|[|[|[|n]]]];
    simpl; lia.
Qed.

(** X2. [callGeminiWithRetry] makes a second call exactly when the first
    one fails with a transient error, and a third call exactly when the
    first two do. *)
Theorem retry_count (ai : Upstream) (parts : list Part) :
  (2 <= attempts (callGeminiWithRetry ai parts).1 <->
   isTransient (ai 1%Z (request parts)))
  /\ (attempts (callGeminiWithRetry ai parts).1 = 3 <->
      isTransient (ai 1%Z (request parts)) /\ isTransient (ai 2%Z (request parts))).
Proof.
  rewrite loop_attempts, <- !retriable_transient.
  destruct (retriable (ai 1%Z (request parts)));
    destruct (retriable (ai 2%Z (request parts))); (split; split; try done; try lia);
    by intros [? ?].
Qed.

(** X3. [callGeminiWithRetry] ends with the outcome of the last call it
    made: the response of that call, or the error thrown by it (the
    error of the [catch] when the thrown value has no message). In
    particular the error after the loop is never raised by the loop: it
    can only be an error of the upstream. *)
Theorem retry_ends_with_last_outcome (ai : Upstream) (parts : list Part) :
  (callGeminiWithRetry ai parts).2
  = ending (ai (Z.of_nat (attempts (callGeminiWithRetry ai parts).1)) (request parts))
  /\ ((callGeminiWithRetry ai parts).2 = Throw (ErrorObj exhaustedMessage) ->
      exists n, (1 <= n <= 3)%Z
                /\ ai n (request parts) = Throw (ErrorObj exhaustedMessage)).
Proof.
  pose proof (loop_ending ai parts) as He.
  destruct (retry_trace_shape ai parts) as (_ & _ & Hn & _). cbv zeta in Hn.
  split; [exact He|]. rewrite He. intros H.
  exists (Z.of_nat (attempts (callGeminiWithRetry ai parts).1)). split; [lia|].
  unfold ending in H.
  destruct (ai _ (request parts)) as [r|e]; [done|].
  destruct (errorMessageOf e) as [m|]; [done|]. by injection H.
Qed.

Lemma tryGenerate_error_message (ai : Upstream) (mains insps : list string)
    (textPrompt : string) (e : Thrown) :
  (tryGenerate ai mains insps textPrompt).2 = Throw e ->
  exists m, errorMessageOf e = Some m.
Proof.
  unfold tryGenerate.
  destruct (mapDataUrls_cases mains) as [(am & _ & ->)|[_ ->]];
    [|intros [= <-]; simpl; eauto].
  destruct (mapDataUrls_cases insps) as [(ai' & _ & ->)|[_ ->]];
    [|intros [= <-]; simpl; eauto].
  pose proof (loop_ending ai (allPartsOf (inlinePart <$> am) (inlinePart <$> ai') textPrompt))
    as He.
  destruct (callGeminiWithRetry ai _) as [evs [response|e']]; simpl in *.
  - unfold processGeminiResponse.
    destruct (imagePartOf response ≫= inlineData); [done|]. intros [= <-]. simpl. eauto.
  - intros [= <-]. unfold ending in He.
    destruct (ai _ _) as [?|e0]; [done|].
    destruct (errorMessageOf e0) as [m|] eqn:E; injection He as ->; simpl; eauto.
Qed.

(** X4. Every failure of [generateVibeBasedImage] is an [Error] whose
    message is either the fixed message for a text response or the
    fixed prefix followed by the message of the failure it caught. So a
    handler that turns the failure into the error state of a slot always
    shows the message of the client, never its fallback text. *)
Theorem client_failure_messages (ai : Upstream) (mains insps : list string)
    (userPrompt : string) :
  match (generateVibeBasedImage ai mains insps userPrompt).2 with
  | Return _ => True
  | Throw e =>
      (e = ErrorObj vibeMessage \/ exists m, e = ErrorObj (failedPrefix +:+ m))
      /\ App.error (slotResult (Throw e)) ≠ Some "An unknown error occurred."
  end.
Proof.
  unfold generateVibeBasedImage.
  pose proof (tryGenerate_error_message ai mains insps (textPromptOf userPrompt)) as Hm.
  destruct (tryGenerate ai mains insps (textPromptOf userPrompt)) as [evs [url|e]];
    simpl; [done|].
  destruct (Hm e eq_refl) as [m Em]. unfold catchGenerate. rewrite Em.
  destruct (includes m textMarker).
  - split; [by left|]. simpl. discriminate.
  - split; [right; by exists m|]. simpl. discriminate.
Qed.

(** * Further properties of the slots *)

Section SlotsFurther.

(** X5. The generate button, in a component that is ready with
    well-formed images, makes exactly [count] calls to the client, all
    with the images and the prompt of the click. Whatever the upstream
    does, each of them sends at least one request, and every request it
    sends has one part per subject image, one per style image, and one
    text part. *)
Theorem generate_click_calls (s0 : State) (count : nat)
    (subjects styles : list ImageAsset) :
  ready s0 -> generationCount s0 = count -> 1 <= count ->
  Forall2 EmbeddedDataFormat (uploadedImages s0) subjects ->
  Forall2 EmbeddedDataFormat (inspirationImages s0) styles ->
  issued (handleGenerateClick s0 s0) = issued s0 ++ replicate count (callOf s0)
  /\ forall (ai : Upstream) (c : GenerateCall),
       c ∈ replicate count (callOf s0) ->
       let evs := (generateVibeBasedImage ai (mainImageDataUrls c)
                     (inspirationDataUrls c) (prompt c)).1 in
       1 <= attempts evs
       /\ forall req, Call req ∈ evs ->
            length (contents req)
            = length (uploadedImages s0) + length (inspirationImages s0) + 1.
Proof.
  intros Hready Hc Hpos Hm Hi.
  destruct (generate_click s0 count Hready Hc Hpos) as (_ & _ & Hissued).
  split; [exact Hissued|].
  intros ai c [-> _]%elem_of_replicate. cbv zeta. cbn [callOf mainImageDataUrls
    inspirationDataUrls prompt].
  rewrite (generate_run ai _ _ (userPrompt s0) subjects styles Hm Hi). cbn [fst].
  destruct (retry_trace_shape ai (payloadOf (userPrompt s0) subjects styles))
    as (_ & Hall & Hn & _).
  cbv zeta in Hall, Hn. split; [lia|].
  intros req Hin. rewrite Forall_forall in Hall.
  specialize (Hall _ Hin eq_refl). injection Hall as ->.
  unfold request, payloadOf, allPartsOf. cbn [contents].
  rewrite !length_app, !length_fmap. simpl.
  rewrite (Forall2_length _ _ _ Hm), (Forall2_length _ _ _ Hi). lia.
Qed.

Lemma generate_click_calls_witness :
  issued (handleGenerateClick (fresh 4) (fresh 4)) = replicate 4 (callOf (fresh 4)).
Proof.
  assert (1 <= 4) as Hpos by lia.
  exact (proj1 (generate_click_calls (fresh 4) 4 [pngAsset] [jpegAsset]
                  (fresh_ready 4) eq_refl Hpos
                  (proj1 example_images) (proj2 example_images))).
Defined.

(** X6. Requesting the regeneration of a slot twice in a row is the same
    as requesting it once: the second request finds the slot pending (or
    is ignored for the reason the first one was), so at most one call is
    made. *)
Theorem regenerate_twice (s : State) (index : nat) :
  handleRegenerateSlot (handleRegenerateSlot s index s) index
    (handleRegenerateSlot s index s)
  = handleRegenerateSlot s index s
  /\ length (issued (handleRegenerateSlot (handleRegenerateSlot s index s) index
                       (handleRegenerateSlot s index s)))
     <= length (issued s) + 1.
Proof.
  assert (handleRegenerateSlot (handleRegenerateSlot s index s) index
            (handleRegenerateSlot s index s)
          = handleRegenerateSlot s index s) as E.
  { destruct (handleRegenerateSlot_cases s s index) as [[_ E1]|[Hno E1]].
    - rewrite E1. set (s1 := setRegenerating _ _).
      destruct (handleRegenerateSlot_cases s1 s1 index) as [[(_ & _ & Hnp) _]|[_ E2]];
        [|exact E2].
      assert (isPendingAt (generatedImages s1) index = true) as Hp.
      { apply isPendingAt_true. unfold s1. simpl. rewrite arrayGet_arraySet.
        apply pendingImage_pending. }
      congruence.
    - rewrite E1. destruct (handleRegenerateSlot_cases s s index) as [[Hyes _]|[_ E2]];
        [contradiction | exact E2]. }
  split; [exact E|]. rewrite E.
  destruct (handleRegenerateSlot_cases s s index) as [[_ ->]|[_ ->]]; simpl.
  - rewrite length_app. simpl. lia.
  - lia.
Qed.

(** X7. For a collection that the generate button starts while no call
    is in flight, and as long as no new generation is started and the
    page is not reset, the calls in flight and the pending slots are the
    same thing, whatever else happens on the page: a slot is pending
    exactly when one call that will write it is in flight, and no slot
    has two such calls. *)
Theorem calls_in_flight_are_pending_slots (p0 : Page.Page) (count : nat)
    (evs : list Page.Event) (p : Page.Page) :
  ready (Page.core p0) -> generationCount (Page.core p0) = count -> 1 <= count ->
  forallb (fun ev => negb (Page.replacesCollection ev)) evs = true ->
  Page.run (Page.Slots GenerateClick :: evs) p0 = Some p ->
  NoDup (writers (Page.core p))
  /\ (forall j, j ∈ writers (Page.core p) <-> j < count /\ isPending (slot (Page.core p) j))
  /\ length (writers (Page.core p)) <= count.
Proof.
  intros (Hst & Hup & Hin & Hw) Hc Hpos Hkeep Hrun.
  destruct (generate_click_page p0 count Hst Hup Hin Hc Hpos)
    as (p1 & Hstep & _ & _ & _ & _ & _ & HI).
  cbn [Page.run] in Hrun. rewrite Hstep in Hrun. cbn [mbind option_bind] in Hrun.
  pose proof (run_inv count evs _ _ (HI Hw) Hkeep Hrun) as [_ _ Hnd Hwr].
  split; [exact Hnd|]. split; [exact Hwr|].
  assert (writers (Page.core p) ⊆ seq 0 count) as Hsub.
  { intros j Hj. apply elem_of_seq. apply Hwr in Hj as [? _]. lia. }
  pose proof (submseteq_length _ _ (NoDup_submseteq _ _ Hnd Hsub)) as Hle.
  by rewrite length_seq in Hle.
Qed.

Lemma calls_in_flight_are_pending_slots_witness :
  exists p,
    Page.run (Page.Slots GenerateClick
              :: Page.Slots (BatchSettled 0 0 (Return "data:image/png;base64,R0VO"))
              :: Page.pasteAndCrop) Page.keyed = Some p
    /\ NoDup (writers (Page.core p))
    /\ (forall j, j ∈ writers (Page.core p) <-> j < 4 /\ isPending (slot (Page.core p) j))
    /\ length (writers (Page.core p)) <= 4.
Proof.
  assert (1 <= 4) as Hpos by lia.
  assert (exists p,
            Page.run (Page.Slots GenerateClick
                      :: Page.Slots (BatchSettled 0 0 (Return "data:image/png;base64,R0VO"))
                      :: Page.pasteAndCrop) Page.keyed = Some p) as [p Hrun]
    by (eexists; vm_compute; reflexivity).
  exists p. split; [exact Hrun|].
  exact (calls_in_flight_are_pending_slots Page.keyed 4
           (Page.Slots (BatchSettled 0 0 (Return "data:image/png;base64,R0VO"))
            :: Page.pasteAndCrop) p
           (fresh_ready 4) eq_refl Hpos eq_refl Hrun).
Defined.

End SlotsFurther.

(** * The cards of the slots *)

Section Cards.

Import PhotoCard.

Lemma uiStep_step (ev : Page.Event) (p p' : Page.Page) :
  uiStep ev p = Some p' -> Page.step ev p = Some p'.
Proof.
  destruct ev as [[|b i r|index|index r]| | | | | | | | | | | | | |]; try done.
  unfold uiStep. by destruct (regenerateOffered index (slot (Page.core p) index)).
Qed.

Lemma regenerateOffered_done (index : nat) (g : option GeneratedImage) :
  regenerateOffered index g = true ->
  exists img, g = Some img /\ App.status img = StDone /\ Page.truthy (url img) = true.
Proof.
  destruct g as [img|]; [|done]. unfold regenerateOffered, render, cardOf. simpl.
  rewrite andb_true_r. intros [Hd Ht]%andb_true_iff. exists img.
  split; [done|]. split; [by apply bool_decide_eq_true in Hd | done].
Qed.

(** An error slot that no call in flight will write keeps its state
    through every event that the page allows, short of a new generation
    and of a reset; and no call that will write it is started. *)
Lemma uiStep_error (ev : Page.Event) (p p' : Page.Page) (j : nat) (img : GeneratedImage) :
  slot (Page.core p) j = Some img -> App.status img = StError ->
  j ∉ writers (Page.core p) ->
  Page.replacesCollection ev = false -> uiStep ev p = Some p' ->
  slot (Page.core p') j = Some img /\ j ∉ writers (Page.core p').
Proof.
  intros Hs He Hw Hev Hui. pose proof (uiStep_step _ _ _ Hui) as Hstep.
  destruct (step_writers ev p p' Hstep)
    as [(Hsl & _ & Ew)|[(i & r & _ & Hi & Hperm & Eg)|[(index & -> & _ & _ & Hperm & Eg)
       |[(-> & _)|(-> & _)]]]]; [| | |done|done].
  - by rewrite Hsl, Ew.
  - assert (j ≠ i) as Hne by (intros ->; contradiction).
    split.
    + unfold slot. rewrite Eg. by rewrite arrayGet_arraySet_ne.
    + intros Hj. apply Hw. rewrite Hperm. by apply elem_of_cons; right.
  - unfold uiStep in Hui.
    destruct (regenerateOffered index (slot (Page.core p) index)) eqn:Ho; [|done].
    apply regenerateOffered_done in Ho as (img' & E & Hd & _).
    assert (j ≠ index) as Hne.
    { intros ->. rewrite Hs in E. injection E as <-. congruence. }
    split.
    + unfold slot. rewrite Eg. by rewrite arrayGet_arraySet_ne.
    + rewrite Hperm. intros [?|?]%elem_of_cons; done.
Qed.

(** X8. The card of a slot in error shows no regenerate button, and the
    handler is only reached through that button: once a slot is in error
    and no call that will write it is in flight, it keeps its state and
    its message through everything that happens on the page, until a
    new generation is started or the page is reset. *)
Theorem error_slot_is_final (evs : list Page.Event) (p p' : Page.Page) (j : nat)
    (img : GeneratedImage) :
  slot (Page.core p) j = Some img -> App.status img = StError ->
  j ∉ writers (Page.core p) ->
  forallb (fun ev => negb (Page.replacesCollection ev)) evs = true ->
  uiRun evs p = Some p' ->
  regenerateOffered j (slot (Page.core p) j) = false
  /\ slot (Page.core p') j = Some img
  /\ j ∉ writers (Page.core p').
Proof.
  intros Hs He Hw Hkeep Hrun. split.
  - rewrite Hs. unfold regenerateOffered, render, cardOf. simpl. by rewrite He.
  - revert p Hs Hw Hrun. induction evs as [|ev evs IH]; intros p Hs Hw Hrun.
    + by injection Hrun as <-.
    + simpl in Hrun, Hkeep. apply andb_true_iff in Hkeep as [Hev%negb_true_iff Hkeep].
      destruct (uiStep ev p) as [p1|] eqn:E; [|done]. simpl in Hrun.
      destruct (uiStep_error ev p p1 j img Hs He Hw Hev E) as [Hs1 Hw1].
      by apply (IH Hkeep p1).
Qed.

Lemma error_slot_is_final_witness :
  exists p p',
    Page.run [Page.Slots GenerateClick;
              Page.Slots (BatchSettled 0 0 (Throw (ErrorObj vibeMessage)))] Page.keyed
    = Some p
    /\ uiRun (Page.Slots (BatchSettled 0 1 (Return "data:image/png;base64,R0VO"))
              :: Page.Slots (RegenerateClick 1) :: Page.pasteAndCrop) p = Some p'
    /\ slot (Page.core p') 0 = Some (slotResult (Throw (ErrorObj vibeMessage))).
Proof.
  assert (exists p,
            Page.run [Page.Slots GenerateClick;
                      Page.Slots (BatchSettled 0 0 (Throw (ErrorObj vibeMessage)))]
              Page.keyed = Some p) as [p Hrun] by (eexists; vm_compute; reflexivity).
  assert (exists p',
            uiRun (Page.Slots (BatchSettled 0 1 (Return "data:image/png;base64,R0VO"))
                   :: Page.Slots (RegenerateClick 1) :: Page.pasteAndCrop) p = Some p')
    as [p' Hui].
  { pose proof Hrun as E. vm_compute in E. injection E as <-.
    eexists. vm_compute. reflexivity. }
  exists p, p'. split; [exact Hrun|]. split; [exact Hui|].
  refine (proj1 (proj2 (error_slot_is_final
                          (Page.Slots (BatchSettled 0 1 (Return "data:image/png;base64,R0VO"))
                           :: Page.Slots (RegenerateClick 1) :: Page.pasteAndCrop)
                          p p' 0 (slotResult (Throw (ErrorObj vibeMessage)))
                          _ eq_refl _ eq_refl Hui))).
  - pose proof Hrun as E. vm_compute in E. injection E as <-. reflexivity.
  - pose proof Hrun as E. vm_compute in E. injection E as <-.
    vm_compute. intros H. repeat (apply elem_of_cons in H as [H|H]; [discriminate|]).
    by apply elem_of_nil in H.
Defined.

Lemma generate_returns_data_url (ai : Upstream) (mains insps : list string)
    (userPrompt url : string) :
  (generateVibeBasedImage ai mains insps userPrompt).2 = Return url ->
  exists rest, url = "data:" +:+ rest.
Proof.
  unfold generateVibeBasedImage, tryGenerate.
  destruct (mapDataUrls mains) as [mp|]; [|done].
  destruct (mapDataUrls insps) as [ip|]; [|done].
  destruct (callGeminiWithRetry ai _) as [evs [response|e]]; simpl; [|done].
  unfold processGeminiResponse.
  destruct (imagePartOf response ≫= inlineData) as [blob|]; [|done].
  simpl. intros [= <-]. eauto.
Qed.

(** X9. An image returned by the client always reaches its card as an
    image: the slot is done, the card shows the image with its download
    and regenerate buttons and never the placeholder, and the download
    handler offers that very image under the name of the slot. *)
Theorem client_image_is_shown (ai : Upstream) (mains insps : list string)
    (userPrompt url : string) (index : nat) (s : State) :
  (generateVibeBasedImage ai mains insps userPrompt).2 = Return url ->
  slot s index = Some (slotResult (Return url)) ->
  image (render (cardOf index (slotResult (Return url)))) = true
  /\ downloadButton (render (cardOf index (slotResult (Return url)))) = true
  /\ regenerateButton (render (cardOf index (slotResult (Return url)))) = true
  /\ placeholder (render (cardOf index (slotResult (Return url)))) = false
  /\ spinner (render (cardOf index (slotResult (Return url)))) = false
  /\ errorDisplay (render (cardOf index (slotResult (Return url)))) = false
  /\ Page.handleDownloadIndividualImage index s
     = [Page.Download url (Page.fileNameOf index)].
Proof.
  intros Hgen Hs. destruct (generate_returns_data_url _ _ _ _ _ Hgen) as [rest ->].
  unfold Page.handleDownloadIndividualImage. unfold slot in Hs. rewrite Hs.
  repeat split.
Qed.

Lemma client_image_is_shown_witness :
  Page.handleDownloadIndividualImage 0 shown
  = [Page.Download "data:image/png;base64,R0VO" "perfect-shot-1.jpg"].
Proof.
  pose proof (client_image_is_shown flakyUpstream [pngUrl] [jpegUrl] ""
                "data:image/png;base64,R0VO" 0 shown) as H.
  destruct H as (_ & _ & _ & _ & _ & _ & H).
  - vm_compute. reflexivity.
  - reflexivity.
  - exact H.
Defined.

End Cards.

(** * The photos of the page *)

Section Photos.

Import Page.

Lemma filterIndex_delete {A : Type} (l : list A) (i0 index : nat) :
  filterIndex (fun i => negb (Nat.eqb i (i0 + index))) i0 l = delete index l.
Proof.
  revert i0 index; induction l as [|a l IH]; intros i0 index; simpl; [done|].
  destruct index as [|index].
  - rewrite Nat.add_0_r, Nat.eqb_refl. simpl.
    clear IH. assert (forall k, i0 < k ->
      filterIndex (fun i => negb (Nat.eqb i i0)) k l = l) as H.
    { induction l as [|b l IH]; intros k Hk; simpl; [done|].
      destruct (Nat.eqb_spec k i0); [lia|]. simpl. f_equal. apply IH. lia. }
    apply H. lia.
  - destruct (Nat.eqb_spec i0 (i0 + S index)); [lia|]. simpl. f_equal.
    replace (i0 + S index) with (S i0 + index) by lia. apply IH.
Qed.

(** X10. Removing a subject photo removes exactly the photo at the given
    index and keeps the others in their order; an index past the end
    removes nothing. The style photos and the rest of the page are left
    as they are; the same holds with the two kinds exchanged. *)
Theorem remove_image_deletes_index (index : nat) (p : Page) :
  uploadedImages (core (removeMainImage index p))
  = take index (uploadedImages (core p)) ++ drop (S index) (uploadedImages (core p))
  /\ inspirationImages (core (removeMainImage index p)) = inspirationImages (core p)
  /\ (length (uploadedImages (core p)) <= index -> removeMainImage index p = p)
  /\ inspirationImages (core (removeInspirationImage index p))
     = take index (inspirationImages (core p)) ++ drop (S index) (inspirationImages (core p))
  /\ uploadedImages (core (removeInspirationImage index p)) = uploadedImages (core p)
  /\ cropQueue (removeMainImage index p) = cropQueue p
  /\ appState (core (removeMainImage index p)) = appState (core p)
  /\ generatedImages (core (removeMainImage index p)) = generatedImages (core p).
Proof.
  unfold removeMainImage, removeInspirationImage. simpl.
  rewrite !(filterIndex_delete _ 0 index), !delete_take_drop.
  repeat split. intros Hge. destruct p as [[u i up g a n b r iss] k q c pa m d rd].
  unfold setCore, setUploadedImages. simpl in *.
  rewrite (filterIndex_delete _ 0 index), delete_take_drop.
  rewrite take_ge by lia. rewrite drop_ge by lia. by rewrite app_nil_r.
Qed.

Lemma slice0_take {A : Type} (l : list A) (n : Z) :
  (0 <= n)%Z -> slice0 l n = take (Z.to_nat n) l.
Proof. intros H. unfold slice0. destruct (Z.ltb_spec n 0); [lia | done]. Qed.

Lemma queued_itemsOf (ty ty' : ImageType) (urls : list string) :
  length (filter (fun item => type item = ty') (itemsOf ty urls))
  = if decide (ty = ty') then length urls else 0.
Proof.
  induction urls as [|u urls IH]; [by destruct (decide _)|].
  change (itemsOf ty (u :: urls)) with ({| dataUrl := u; type := ty |} :: itemsOf ty urls).
  rewrite filter_cons. cbn [type].
  destruct (decide (ty = ty')); [|done]. cbn [length]. by rewrite IH.
Qed.

(** X11. Adding the pasted images of a kind puts into the crop queue the
    first pasted images, in order and of that kind, as many as the limit
    of the kind leaves room for beside the images held; it then empties
    the pasted images and closes the dialog. With no room left, nothing
    at all changes: the dialog stays open with its images. *)
Theorem add_pasted_images (ty : ImageType) (p : Page) :
  ((maxImagesOf ty <= currentCountOf ty p)%Z -> handleAddPastedImages ty p p = p)
  /\ ((currentCountOf ty p < maxImagesOf ty)%Z ->
      let added := take (Z.to_nat (maxImagesOf ty - currentCountOf ty p)) (pastedImages p) in
      cropQueue (handleAddPastedImages ty p p) = cropQueue p ++ itemsOf ty added
      /\ (Z.of_nat (held ty p + length added) <= maxImagesOf ty)%Z
      /\ pastedImages (handleAddPastedImages ty p p) = []
      /\ isPasteModalOpen (handleAddPastedImages ty p p) = false
      /\ core (handleAddPastedImages ty p p) = core p).
Proof.
  unfold handleAddPastedImages. split.
  - intros H. destruct (Z.leb_spec (maxImagesOf ty - currentCountOf ty p) 0); [done | lia].
  - intros H. cbv zeta.
    destruct (Z.leb_spec (maxImagesOf ty - currentCountOf ty p) 0); [lia|].
    rewrite slice0_take by lia. simpl. repeat split.
    rewrite length_take. unfold currentCountOf, held in *. destruct ty; lia.
Qed.

Lemma readAll_spec (results : list (option string)) (urls : list string) :
  readAll results = Some urls <->
  Forall2 (fun r u => r = Some u /\ u ≠ "") results urls.
Proof.
  unfold readAll. rewrite mapM_Some. split.
  - induction 1 as [|r u rs us Hr _ IH]; constructor; [|done].
    destruct r as [[|c v]|]; simpl in Hr; [done| |done]. by injection Hr as <-.
  - induction 1 as [|r u rs us [-> Hu] _ IH]; constructor; [|done].
    by destruct u.
Qed.

Lemma readAll_none (results : list (option string)) :
  readAll results = None <->
  Exists (fun r => r = None \/ r = Some "") results.
Proof.
  unfold readAll. induction results as [|r rs IH]; simpl.
  - split; [done | by intros ?%Exists_nil].
  - rewrite Exists_cons. destruct r as [[|c v]|]; simpl.
    + split; [intros _; left; by right | done].
    + destruct (mapM readPromise rs) as [us|]; simpl.
      * split; [done|]. intros [[?|?]|H]; [done|done|]. by apply IH in H.
      * split; [intros _; right; by apply IH | done].
    + split; [intros _; left; by left | done].
Qed.

(** X12. An upload, while the limit of the kind is not exceeded, reads
    only the first files chosen, as many as the limit leaves room for
    beside the images held when they are chosen. When all these reads
    end with a result, their images join the crop queue in the order of
    the files, whatever the state of the page has become meanwhile; when
    one of them fails, no image of the upload joins the queue. *)
Theorem upload_reads_all_or_nothing (ty : ImageType) (results : list (option string))
    (view : Page) :
  (currentCountOf ty view <= maxImagesOf ty)%Z ->
  let read := take (Z.to_nat (maxImagesOf ty - currentCountOf ty view)) results in
  (forall p, handleImageUpload ty results view p
             = startRead {| target := uploaded ty; outcomes := read |} p)
  /\ (forall urls,
        Forall2 (fun r u => r = Some u /\ u ≠ "") read urls ->
        (forall p, uploadSettled ty read p
                   = setCropQueue (fun prev => prev ++ itemsOf ty urls) p)
        /\ Page.run [Upload ty results; ReadsEnd 0] view
           = Some (setCropQueue (fun prev => prev ++ itemsOf ty urls) view)
        /\ (Z.of_nat (held ty view + length urls) <= maxImagesOf ty)%Z)
  /\ (Exists (fun r => r = None \/ r = Some "") read ->
      (forall p, uploadSettled ty read p = p)
      /\ Page.run [Upload ty results; ReadsEnd 0] view = Some view).
Proof.
  intros Hle. cbv zeta.
  assert (forall p, handleImageUpload ty results view p
                    = startRead {| target := uploaded ty;
                                   outcomes := take (Z.to_nat (maxImagesOf ty
                                                               - currentCountOf ty view))
                                                 results |} p) as Hstart.
  { intros p. unfold handleImageUpload, filesToRead. by rewrite slice0_take by lia. }
  assert (Page.run [Upload ty results; ReadsEnd 0] view
          = Some (uploadSettled ty (take (Z.to_nat (maxImagesOf ty - currentCountOf ty view))
                                      results) view)) as Hrun.
  { cbn [Page.run Page.step mbind option_bind]. rewrite Hstart.
    cbn [startRead setReading reading lookup list_lookup mbind option_bind].
    unfold readsSettled. cbn [target outcomes delete list_delete]. by destruct view. }
  split; [exact Hstart|]. split.
  - intros urls Hall. pose proof (Forall2_length _ _ _ Hall) as Hlen.
    apply readAll_spec in Hall.
    assert (forall p, uploadSettled ty (take (Z.to_nat (maxImagesOf ty
                                                        - currentCountOf ty view)) results) p
                      = setCropQueue (fun prev => prev ++ itemsOf ty urls) p) as Hs
      by (intros p; unfold uploadSettled; by rewrite Hall).
    split; [exact Hs|]. split; [by rewrite Hrun, Hs|].
    rewrite <- Hlen, length_take. unfold currentCountOf, held in *. destruct ty; lia.
  - intros Hex. apply readAll_none in Hex.
    assert (forall p, uploadSettled ty (take (Z.to_nat (maxImagesOf ty
                                                        - currentCountOf ty view)) results) p
                      = p) as Hs by (intros p; unfold uploadSettled; by rewrite Hex).
    split; [exact Hs|]. by rewrite Hrun, Hs.
Qed.

Lemma upload_reads_all_or_nothing_witness :
  Page.run [Upload inspiration [Some pngUrl; None]; ReadsEnd 0] keyed = Some keyed.
Proof.
  assert (currentCountOf inspiration keyed <= maxImagesOf inspiration)%Z as Hle
    by (vm_compute; discriminate).
  apply (proj2 (proj2 (upload_reads_all_or_nothing inspiration [Some pngUrl; None] keyed Hle))).
  apply Exists_cons_tl, Exists_cons_hd. by left.
Defined.

End Photos.

Section Limits.

Import Page.

Lemma step_keeps_photos (ev : App.Event) (s s' : State) :
  App.step ev s = Some s' ->
  uploadedImages s' = uploadedImages s /\ inspirationImages s' = inspirationImages s.
Proof.
  destruct ev as [|b i r|index|index r]; simpl.
  - destruct (decide _); [|done]. intros [= <-]. unfold handleGenerateClick.
    repeat match goal with |- context [if ?b then _ else _] => destruct b end; done.
  - destruct (decide _); [|done]. intros [= <-].
    by destruct (batchSettled_fields b i r s) as (_ & _ & _ & _ & _ & _ & -> & ->).
  - destruct (decide _); [|done]. intros [= <-].
    by destruct (handleRegenerateSlot_cases s s index) as [[_ ->]|[_ ->]].
  - destruct (decide _); [|done]. by intros [= <-].
Qed.

Lemma filterIndex_length {A : Type} (f : nat -> bool) (i : nat) (l : list A) :
  length (filterIndex f i l) <= length l.
Proof.
  revert i; induction l as [|a l IH]; intros i; simpl; [done|].
  destruct (f i); simpl; specialize (IH (S i)); lia.
Qed.

Lemma queued_drop (ty : ImageType) (q : list QueueItem) :
  length (filter (fun item => type item = ty) (drop 1 q))
  <= length (filter (fun item => type item = ty) q).
Proof.
  destruct q as [|item q]; [done|]. simpl. rewrite drop_0, filter_cons.
  destruct (decide _); simpl; lia.
Qed.

(** The files of the reads in flight, when reads are started and when
    they end. *)
Lemma beingRead_start (ty : ImageType) (rd : Read) (p : Page) :
  beingRead ty (startRead rd p) = filesOf ty rd + beingRead ty p.
Proof. done. Qed.

Lemma beingRead_end (ty : ImageType) (k : nat) (rd : Read) (p : Page) :
  reading p !! k = Some rd ->
  beingRead ty p = filesOf ty rd + beingRead ty (setReading (delete k) p).
Proof.
  unfold beingRead. cbn [setReading reading]. generalize (reading p). clear p.
  intros l. revert k. induction l as [|rd0 l IH]; intros k Hk; [done|].
  destruct k as [|k].
  - injection Hk as ->. done.
  - change (delete (S k) (rd0 :: l)) with (rd0 :: delete k l).
    rewrite !fmap_cons. cbn [foldr]. rewrite (IH k Hk). lia.
Qed.

(** The images of a kind that the page has to do with. *)
Lemma not_increasing (p p' : Page) :
  (forall ty, held ty p' + queued ty p' + beingRead ty p'
              <= held ty p + queued ty p + beingRead ty p) ->
  withinLimits p -> withinLimits p'.
Proof. intros H Hw ty. specialize (H ty). specialize (Hw ty). lia. Qed.

Lemma queue_grows (ty ty' : ImageType) (urls : list string) (p : Page) :
  queued ty' (setCropQueue (fun prev => prev ++ itemsOf ty urls) p)
  = queued ty' p + (if decide (ty = ty') then length urls else 0).
Proof.
  unfold queued. cbn [setCropQueue cropQueue].
  by rewrite filter_app, length_app, queued_itemsOf.
Qed.

(** Every event keeps the limits, provided images are added only while
    no image waits in the queue and no upload is being read. *)
Lemma step_within_limits (ev : Page.Event) (p p' : Page) :
  withinLimits p -> (addsImages ev = true -> settled p) ->
  Page.step ev p = Some p' -> withinLimits p'.
Proof.
  intros Hw Hadd Hstep.
  destruct ev as [e| |text|n|onInput results|ty results|k|ty| | |canvas| |index|index|].
  - destruct (step_slots e p p' Hstep) as (s & Hs & ->).
    destruct (step_keeps_photos _ _ _ Hs) as [Hu Hi].
    apply (not_increasing p); [|done]. intros ty. unfold held, queued, beingRead. simpl.
    destruct ty; rewrite ?Hu, ?Hi; lia.
  - simpl in Hstep. destruct (decide _); [|done]. injection Hstep as <-.
    by apply (not_increasing p).
  - injection Hstep as <-. by apply (not_increasing p).
  - simpl in Hstep. destruct (decide _); [|done]. injection Hstep as <-.
    by apply (not_increasing p).
  - injection Hstep as <-. apply (not_increasing p); [|done]. intros ty.
    unfold handlePaste.
    repeat match goal with |- context [if ?b then _ else _] => destruct b end; try done.
  - injection Hstep as <-. destruct (Hadd eq_refl) as [Hq Hr].
    assert (currentCountOf ty p <= maxImagesOf ty)%Z as Hle.
    { specialize (Hw ty). unfold currentCountOf, held in *. destruct ty; lia. }
    unfold handleImageUpload, filesToRead. rewrite slice0_take by lia.
    intros ty'. rewrite beingRead_start, (Hr ty').
    change (held ty' (startRead _ p)) with (held ty' p).
    change (queued ty' (startRead _ p)) with (queued ty' p).
    unfold filesOf. cbn [target outcomes]. specialize (Hw ty').
    destruct (decide (uploaded ty = uploaded ty')) as [[= <-]|_]; [|lia].
    rewrite length_take. unfold queued. rewrite Hq, filter_nil. cbn [length].
    unfold currentCountOf, held in *. destruct ty; simpl in *; lia.
  - simpl in Hstep. destruct (reading p !! k) as [rd|] eqn:Hk; [|done].
    injection Hstep as <-. intros ty. specialize (Hw ty).
    rewrite (beingRead_end ty k rd p Hk) in Hw.
    set (p1 := setReading (delete k) p) in *.
    change (held ty p) with (held ty p1) in Hw.
    change (queued ty p) with (queued ty p1) in Hw.
    unfold readsSettled, pasteSettled, uploadSettled, filesOf in *.
    destruct (target rd) as [|ty0] eqn:Et.
    + destruct (readAll (outcomes rd)); exact Hw.
    + destruct (readAll (outcomes rd)) as [urls|] eqn:E; [|lia].
      apply readAll_spec, Forall2_length in E.
      rewrite queue_grows.
      change (held ty (setCropQueue _ p1)) with (held ty p1).
      change (beingRead ty (setCropQueue _ p1)) with (beingRead ty p1).
      destruct (decide (uploaded ty0 = uploaded ty)) as [[= ->]|Hne].
      * destruct (decide (ty = ty)); [lia | done].
      * destruct (decide (ty0 = ty)) as [->|]; [done | lia].
  - injection Hstep as <-. destruct (Hadd eq_refl) as [Hq Hr].
    unfold handleAddPastedImages.
    destruct (Z.leb_spec (maxImagesOf ty - currentCountOf ty p) 0); [done|].
    rewrite slice0_take by lia. intros ty'.
    change (held ty' (setPastedImages _ (setIsPasteModalOpen _ ?q))) with (held ty' p).
    change (beingRead ty' (setPastedImages _ (setIsPasteModalOpen _ ?q)))
      with (beingRead ty' p).
    change (queued ty' (setPastedImages _ (setIsPasteModalOpen _ ?q))) with (queued ty' q).
    rewrite queue_grows, (Hr ty'). unfold queued at 1. rewrite Hq, filter_nil. cbn [length].
    specialize (Hw ty'). destruct (decide (ty = ty')) as [<-|_]; [|lia].
    rewrite length_take. unfold currentCountOf, held in *. destruct ty; lia.
  - injection Hstep as <-. by apply (not_increasing p).
  - injection Hstep as <-. by apply (not_increasing p).
  - injection Hstep as <-. unfold handleCropConfirm.
    destruct (negb _ || negb (completedCrop p) || bool_decide _); [done|].
    destruct canvas as [cropped|]; [|done].
    destruct (cropQueue p) as [|item rest] eqn:Hq; [done|].
    apply (not_increasing p); [|done]. intros ty. unfold held, queued, beingRead.
    destruct item as [u t]. cbn [type].
    destruct t; cbn [setCompletedCrop setCropQueue setCore setAppState
      setUploadedImages setInspirationImages core cropQueue uploadedImages
      inspirationImages reading];
      rewrite Hq; cbn [drop]; rewrite filter_cons; cbn [type];
      destruct ty; rewrite ?length_app, ?drop_0; destruct (decide _); simpl;
      first [lia | congruence].
  - injection Hstep as <-. apply (not_increasing p); [|done]. intros ty.
    unfold held, queued, beingRead, handleCropCancel. simpl.
    pose proof (queued_drop ty (cropQueue p)). destruct ty; lia.
  - injection Hstep as <-. apply (not_increasing p); [|done]. intros ty.
    unfold held, queued, beingRead, removeMainImage. simpl.
    pose proof (filterIndex_length (fun i => negb (Nat.eqb i index)) 0
                  (uploadedImages (core p))).
    destruct ty; lia.
  - injection Hstep as <-. apply (not_increasing p); [|done]. intros ty.
    unfold held, queued, beingRead, removeInspirationImage. simpl.
    pose proof (filterIndex_length (fun i => negb (Nat.eqb i index)) 0
                  (inspirationImages (core p))).
    destruct ty; lia.
  - injection Hstep as <-. apply (not_increasing p); [|done]. intros ty.
    unfold held, queued, beingRead. simpl. destruct ty; simpl; lia.
Qed.

(** X13. The limits of 10 subject photos and 5 style photos, counted
    over the photos held, those waiting to be cropped and those of the
    uploads being read, are kept by every sequence of events of the page
    in which photos are added (files chosen for an upload, pasted images
    put into the queue) only while no photo waits to be cropped and no
    upload is being read. *)
Theorem limits_are_kept (evs : list Page.Event) (p p' : Page) :
  withinLimits p -> addsWhenSettled evs p -> Page.run evs p = Some p' ->
  withinLimits p'
  /\ length (uploadedImages (core p')) <= 10
  /\ length (inspirationImages (core p')) <= 5.
Proof.
  intros Hw Hd Hrun.
  assert (withinLimits p') as Hw'.
  { revert p Hw Hd Hrun. induction evs as [|ev evs IH]; intros p Hw Hd Hrun;
      simpl in *; [by injection Hrun as <-|].
    destruct Hd as [Hadd Hrest].
    destruct (Page.step ev p) as [p1|] eqn:E; [|done]. simpl in Hrun.
    apply (IH p1); [|done|done]. by apply (step_within_limits ev p). }
  split; [exact Hw'|].
  pose proof (Hw' main) as Hm. pose proof (Hw' inspiration) as Hi.
  unfold held, maxImagesOf, MAX_MAIN_IMAGES, MAX_INSPIRATION_IMAGES in *. lia.
Qed.

End Limits.

Section LimitsFurther.

Import Page.

Lemma keyed_within_limits : withinLimits keyed.
Proof. intros ty. destruct ty; vm_compute; discriminate. Qed.

Lemma limits_are_kept_witness :
  exists p',
    Page.run (Upload main [Some pngUrl] :: ReadsEnd 0
              :: cropAndSave jpegUrl ++ pasteAndAdd pngUrl ++ cropAndSave jpegUrl) keyed
    = Some p'
    /\ length (uploadedImages (core p')) <= 10.
Proof.
  assert (exists p',
            Page.run (Upload main [Some pngUrl] :: ReadsEnd 0
                      :: cropAndSave jpegUrl ++ pasteAndAdd pngUrl ++ cropAndSave jpegUrl)
              keyed = Some p')
    as [p' Hrun] by (eexists; vm_compute; reflexivity).
  exists p'. split; [exact Hrun|].
  refine (proj1 (proj2 (limits_are_kept _ keyed p' keyed_within_limits _ Hrun))).
  vm_compute. repeat split; try discriminate; by intros [].
Defined.

Lemma paste_round (u : string) (p : Page) :
  u ≠ "" -> isApiKeySet p = true -> uploadedImages (core p) = [] ->
  exists p', Page.run (pasteAndAdd u) p = Some p'
             /\ cropQueue p' = cropQueue p ++ [{| dataUrl := u; type := main |}]
             /\ core p' = core p /\ isApiKeySet p' = true.
Proof.
  intros Hu Hk Hup. unfold pasteAndAdd. cbn [Page.run Page.step mbind option_bind].
  unfold handlePaste. rewrite Hk. cbn [negb length].
  rewrite (bool_decide_eq_true_2 (0 < 1)) by lia.
  cbn [startRead setReading reading lookup list_lookup mbind option_bind].
  unfold readsSettled, pasteSettled. cbn [target outcomes].
  assert (readAll [Some u] = Some [u]) as -> by (destruct u; done).
  unfold handleAddPastedImages, currentCountOf.
  cbn [setIsPasteModalOpen setPastedImages setReading startRead core pastedImages
       maxImagesOf].
  rewrite Hup. cbn. eexists. split; [reflexivity|]. cbn. done.
Qed.

Lemma crop_round (u c : string) (rest : list QueueItem) (p : Page) :
  cropQueue p = {| dataUrl := u; type := main |} :: rest ->
  exists p', Page.run (cropAndSave c) p = Some p'
             /\ uploadedImages (core p') = uploadedImages (core p) ++ [c]
             /\ cropQueue p' = rest.
Proof.
  intros Hq. unfold cropAndSave. cbn [Page.run Page.step mbind option_bind].
  unfold handleCropConfirm. cbn [setCompletedCrop completedCrop cropQueue].
  rewrite Hq. cbn [length].
  rewrite (bool_decide_eq_true_2 (0 < S _)) by lia.
  rewrite (bool_decide_eq_false_2 (S _ = 0)) by lia.
  cbn [negb orb type]. eexists. split; [reflexivity|]. cbn. by rewrite Hq.
Qed.


Lemma paste_rounds (u : string) (n : nat) (p : Page) :
  u ≠ "" -> isApiKeySet p = true -> uploadedImages (core p) = [] ->
  exists p', Page.run (times n (pasteAndAdd u)) p = Some p'
             /\ cropQueue p' = cropQueue p ++ replicate n {| dataUrl := u; type := main |}
             /\ core p' = core p.
Proof.
  intros Hu. revert p; induction n as [|n IH]; intros p Hk Hup; cbn [times].
  - exists p. by rewrite app_nil_r.
  - rewrite run_app.
    destruct (paste_round u p Hu Hk Hup) as (p1 & -> & Hq1 & Hc1 & Hk1).
    cbn [mbind option_bind].
    destruct (IH p1 Hk1) as (p' & Hrun & Hq & Hc); [by rewrite Hc1|].
    exists p'. split; [exact Hrun|]. split; [|by rewrite Hc].
    rewrite Hq, Hq1. cbn [replicate]. by rewrite <- app_assoc.
Qed.

Lemma crop_rounds (u c : string) (n : nat) (rest : list QueueItem) (p : Page) :
  cropQueue p = replicate n {| dataUrl := u; type := main |} ++ rest ->
  exists p', Page.run (times n (cropAndSave c)) p = Some p'
             /\ uploadedImages (core p') = uploadedImages (core p) ++ replicate n c
             /\ cropQueue p' = rest.
Proof.
  revert p; induction n as [|n IH]; intros p Hq; cbn [times].
  - exists p. by rewrite app_nil_r.
  - rewrite run_app.
    destruct (crop_round u c (replicate n {| dataUrl := u; type := main |} ++ rest) p Hq)
      as (p1 & -> & Hu1 & Hq1).
    cbn [mbind option_bind].
    destruct (IH p1 Hq1) as (p' & Hrun & Hu' & Hq').
    exists p'. split; [exact Hrun|]. split; [|done].
    rewrite Hu', Hu1. cbn [replicate]. by rewrite <- app_assoc.
Qed.

(** X14. The handlers count only the photos held, not those waiting to
    be cropped: when photos are pasted in and added while earlier ones
    still wait in the queue, any number of subject photos ends up held,
    beyond the limit of 10. *)
Theorem limit_counts_held_photos_only (n : nat) (u c : string) (p : Page) :
  u ≠ "" -> isApiKeySet p = true -> uploadedImages (core p) = [] -> cropQueue p = [] ->
  exists p',
    Page.run (times n (pasteAndAdd u) ++ times n (cropAndSave c)) p = Some p'
    /\ uploadedImages (core p') = replicate n c
    /\ cropQueue p' = [].
Proof.
  intros Hu Hk Hup Hq. rewrite run_app.
  destruct (paste_rounds u n p Hu Hk Hup) as (p1 & -> & Hq1 & Hc1).
  cbn [mbind option_bind]. rewrite Hq, app_nil_l in Hq1.
  destruct (crop_rounds u c n [] p1) as (p' & Hrun & Hu' & Hq').
  { by rewrite app_nil_r. }
  exists p'. split; [exact Hrun|]. split; [|exact Hq'].
  by rewrite Hu', Hc1, Hup.
Qed.

Lemma limit_counts_held_photos_only_witness :
  exists p',
    Page.run (times 11 (pasteAndAdd pngUrl) ++ times 11 (cropAndSave jpegUrl)) started
    = Some p'
    /\ length (uploadedImages (core p')) = 11.
Proof.
  destruct (limit_counts_held_photos_only 11 pngUrl jpegUrl started)
    as (p' & Hrun & Hu & _); [done | reflexivity | reflexivity | reflexivity|].
  exists p'. split; [exact Hrun|]. rewrite Hu. reflexivity.
Defined.

End LimitsFurther.

Section Editor.

Import Page.

Lemma handleCropConfirm_cases (image : bool) (canvas : option string) (p : Page) :
  handleCropConfirm image canvas p p = p
  \/ (completedCrop (handleCropConfirm image canvas p p) = false
      /\ cropQueue (handleCropConfirm image canvas p p) = drop 1 (cropQueue p)
      /\ appState (core (handleCropConfirm image canvas p p)) = PhotosUploaded).
Proof.
  unfold handleCropConfirm.
  destruct (negb image || negb (completedCrop p) || bool_decide _); [by left|].
  destruct canvas as [cropped|]; [|by left].
  destruct (cropQueue p) as [|item rest] eqn:Hq; [by left|].
  right. destruct (type item); simpl; by rewrite Hq.
Qed.

(** X15. Saving a crop needs a completed crop and uses it up: without
    one the handler changes nothing; when it does save, the first image
    of the queue leaves the queue, the completed crop is cleared, and
    any further click on the button changes nothing until a crop is
    completed again. *)
Theorem crop_save_uses_the_crop (image : bool) (canvas : option string) (p : Page) :
  (completedCrop p = false -> handleCropConfirm image canvas p p = p)
  /\ (handleCropConfirm image canvas p p ≠ p ->
      completedCrop (handleCropConfirm image canvas p p) = false
      /\ cropQueue (handleCropConfirm image canvas p p) = drop 1 (cropQueue p)
      /\ appState (core (handleCropConfirm image canvas p p)) = PhotosUploaded
      /\ forall image' canvas',
           handleCropConfirm image' canvas' (handleCropConfirm image canvas p p)
             (handleCropConfirm image canvas p p)
           = handleCropConfirm image canvas p p).
Proof.
  split.
  - intros Hc. unfold handleCropConfirm. rewrite Hc. by rewrite orb_true_r.
  - intros Hne.
    destruct (handleCropConfirm_cases image canvas p) as [E|(Hc & Hq & Ha)]; [done|].
    split; [done|]. split; [done|]. split; [done|]. intros image' canvas'.
    set (p1 := handleCropConfirm image canvas p p) in *.
    unfold handleCropConfirm. rewrite Hc. by rewrite orb_true_r.
Qed.

Lemma arraySet_nil {A : Type} (index : nat) (v : A) :
  arraySet [] index v = replicate index Hole ++ [Value v].
Proof.
  unfold arraySet. destruct (decide (index < length [])) as [H|_]; [simpl in H; lia|].
  simpl. by rewrite Nat.sub_0_r.
Qed.

(** X16. Starting over does not stop the calls in flight. When a
    regeneration requested before settles afterwards, its result is
    written at its index into the emptied collection, which then has
    that index plus one elements, all holes but the last. A later write
    below that index copies the array first, and the copy has undefined
    elements where the holes were. *)
Theorem reset_keeps_calls_in_flight (p : Page) (index : nat) (r : Completion string) :
  index ∈ regenerating (core p) ->
  exists p',
    Page.run [Reset; Slots (RegenerateSettled index r)] p = Some p'
    /\ generatedImages (core p') = replicate index Hole ++ [Value (slotResult r)]
    /\ length (generatedImages (core p')) = index + 1
    /\ appState (core p') = Idle
    /\ uploadedImages (core p') = []
    /\ forall k v, k < index ->
         arraySet (generatedImages (core p')) k v
         = <[k := Value v]> (replicate index Undefined ++ [Value (slotResult r)]).
Proof.
  intros Hin. cbn [Page.run Page.step mbind option_bind].
  cbn [setCore core handleReset App.step regenerating].
  destruct (decide (index ∈ regenerating (core p))); [|done].
  cbn [mbind option_bind]. eexists. split; [reflexivity|].
  cbn. rewrite arraySet_nil.
  split; [done|]. split; [rewrite length_app, length_replicate; simpl; lia|].
  split; [done|]. split; [done|]. intros k v Hk.
  rewrite arraySet_in_range by (rewrite length_app, length_replicate; simpl; lia).
  f_equal. unfold spread. rewrite fmap_app, fmap_replicate. done.
Qed.

Lemma reset_keeps_calls_in_flight_witness :
  exists p',
    Page.run [Reset; Slots (RegenerateSettled 1 (Return "data:image/png;base64,R0VO"))]
      regenerating1 = Some p'
    /\ generatedImages (core p') = [Hole; Value doneImage].
Proof.
  destruct (reset_keeps_calls_in_flight regenerating1 1
              (Return "data:image/png;base64,R0VO")) as (p' & Hrun & Hg & _).
  - vm_compute. apply list_elem_of_singleton. reflexivity.
  - exists p'. split; [exact Hrun|]. rewrite Hg. reflexivity.
Defined.

End Editor.

(** * The album *)

Section Album.

Import Page.

Lemma captionOf_inj (i j : nat) : captionOf i = captionOf j -> i = j.
Proof.
  unfold captionOf. intros H. apply (inj (String.app "Result ")) in H.
  apply (inj pretty) in H. lia.
Qed.

Lemma objSet_fresh (key value : string) (obj : list (string * string)) :
  key ∉ obj.*1 -> objSet key value obj = obj ++ [(key, value)].
Proof.
  induction obj as [|[k v] obj IH]; simpl; [done|].
  intros Hnotin. apply not_elem_of_cons in Hnotin as [Hne Hnotin].
  rewrite bool_decide_eq_false_2 by done. by rewrite IH.
Qed.

(** The keys of the entries from an index on are captions of indices
    from that index on. *)
Lemma doneEntries_keys (index : nat) (images : list (Element GeneratedImage)) (k : string) :
  k ∈ (doneEntries index images).*1 -> exists i, index <= i /\ k = captionOf i.
Proof.
  revert index; induction images as [|g images IH]; intros index; simpl.
  - by intros ?%elem_of_nil.
  - assert (k ∈ (doneEntries (S index) images).*1 ->
            exists i, index <= i /\ k = captionOf i) as Hrest.
    { intros H. destruct (IH _ H) as (i & Hi & ->). exists i. split; [lia | done]. }
    destruct g as [| |image]; [exact Hrest | exact Hrest |].
    destruct (bool_decide _ && truthy _); [|exact Hrest].
    simpl. intros [->|H]%elem_of_cons; [by exists index | by apply Hrest].
Qed.

Lemma doneEntries_NoDup (index : nat) (images : list (Element GeneratedImage)) :
  NoDup (doneEntries index images).*1.
Proof.
  revert index; induction images as [|g images IH]; intros index; simpl;
    [apply NoDup_nil_2|].
  destruct g as [| |image]; [apply IH | apply IH |].
  destruct (bool_decide _ && truthy _); [|apply IH].
  simpl. apply NoDup_cons_2; [|apply IH].
  intros (i & Hi & E%captionOf_inj)%doneEntries_keys. lia.
Qed.

(** The [forEach] fills the object with the entries, unless it meets an
    element that is [undefined]. *)
Lemma collectDone_entries (images : list (Element GeneratedImage)) :
  forall index imageData,
    Undefined ∉ images ->
    (forall k, k ∈ imageData.*1 -> exists i, i < index /\ k = captionOf i) ->
    collectDone index images imageData = Some (imageData ++ doneEntries index images).
Proof.
  induction images as [|g images IH]; intros index imageData Hall Hkeys; simpl.
  - by rewrite app_nil_r.
  - apply not_elem_of_cons in Hall as [Hg Hall].
    assert (forall k, k ∈ imageData.*1 -> exists i, i < S index /\ k = captionOf i) as Hkeys'.
    { intros k H. destruct (Hkeys k H) as (i & Hi & ->). exists i. split; [lia | done]. }
    destruct g as [| |image]; [by apply IH | done |].
    destruct (bool_decide _ && truthy _).
    + rewrite objSet_fresh.
      * rewrite IH; [by rewrite <- app_assoc | done|].
        intros k. rewrite fmap_app, elem_of_app. intros [H|H]; [by apply Hkeys'|].
        simpl in H. apply list_elem_of_singleton in H as ->. exists index.
        split; [lia | done].
      * intros H. destruct (Hkeys _ H) as (i & Hi & E%captionOf_inj). lia.
    + by apply IH.
Qed.

Lemma collectDone_undefined (images : list (Element GeneratedImage)) :
  forall index imageData,
    Undefined ∈ images -> collectDone index images imageData = None.
Proof.
  induction images as [|g images IH]; intros index imageData Hin; simpl.
  - by apply elem_of_nil in Hin.
  - apply elem_of_cons in Hin as [<-|Hin]; [done|].
    destruct g as [| |image]; [by apply IH | done |].
    destruct (bool_decide _ && truthy _); by apply IH.
Qed.

Lemma doneEntries_elem (images : list (Element GeneratedImage)) (index : nat)
    (k u : string) :
  (k, u) ∈ doneEntries index images <->
  exists i image, images !! i = Some (Value image) /\ status image = StDone
                  /\ url image = Some u /\ u ≠ "" /\ k = captionOf (index + i).
Proof.
  revert index; induction images as [|g images IH]; intros index; simpl.
  - split; [by intros ?%elem_of_nil | by intros (i & image & H & _)].
  - assert ((k, u) ∈ doneEntries (S index) images <->
            exists i image, (g :: images) !! S i = Some (Value image)
                            /\ status image = StDone /\ url image = Some u /\ u ≠ ""
                            /\ k = captionOf (index + S i)) as Hrest.
    { rewrite IH. split; intros (i & image & H1 & H2 & H3 & H4 & ->);
        exists i, image; repeat split; try done; f_equal; lia. }
    assert (forall image, g = Value image ->
              (bool_decide (status image = StDone) && truthy (url image) = true <->
               exists u', status image = StDone /\ url image = Some u' /\ u' ≠ ""))
      as Hhead.
    { intros image _. rewrite andb_true_iff, bool_decide_eq_true. unfold truthy.
      destruct (url image) as [[|c v]|].
      - split; [by intros [_ ?] | by intros (u' & _ & [= <-] & ?)].
      - split; [intros [? _]; by exists (String c v) | by intros (u' & ? & _)].
      - split; [by intros [_ ?] | by intros (u' & _ & ? & _)]. }
    assert ((k, u) ∈ doneEntries (S index) images <->
            exists i image, (g :: images) !! i = Some (Value image)
                            /\ status image = StDone /\ url image = Some u /\ u ≠ ""
                            /\ k = captionOf (index + i)
                            /\ i ≠ 0) as Htail.
    { rewrite Hrest. split.
      - intros (i & img & H1 & H2 & H3 & H4 & H5). exists (S i), img. by repeat split.
      - intros ([|i] & img & H1 & H2 & H3 & H4 & H5 & H6); [done|].
        exists i, img. by repeat split. }
    destruct g as [| |image].
    + rewrite Htail. split.
      * intros (i & img & H1 & H2 & H3 & H4 & H5 & _). exists i, img. by repeat split.
      * intros ([|i] & img & H1 & H2 & H3 & H4 & H5); [done|].
        exists (S i), img. by repeat split.
    + rewrite Htail. split.
      * intros (i & img & H1 & H2 & H3 & H4 & H5 & _). exists i, img. by repeat split.
      * intros ([|i] & img & H1 & H2 & H3 & H4 & H5); [done|].
        exists (S i), img. by repeat split.
    + destruct (bool_decide _ && truthy _) eqn:E.
      * apply (Hhead image eq_refl) in E as (u' & Hd & Hu & Hne).
        rewrite elem_of_cons, Hrest, Hu. simpl. split.
        -- intros [[= -> ->]|(i & img & H)].
           ++ exists 0, image. rewrite Nat.add_0_r. by repeat split.
           ++ exists (S i), img. exact H.
        -- intros ([|i] & img & H1 & H2 & H3 & H4 & ->).
           ++ left. simpl in H1. injection H1 as <-. rewrite Nat.add_0_r.
              f_equal. congruence.
           ++ right. exists i, img. by repeat split.
      * rewrite Hrest. split.
        -- intros (i & img & H). exists (S i), img. exact H.
        -- intros ([|i] & img & H1 & H2 & H3 & H4 & ->).
           ++ simpl in H1. injection H1 as <-.
              assert (bool_decide (status image = StDone) && truthy (url image) = true)
                as E' by (apply (Hhead image eq_refl); eauto).
              congruence.
           ++ exists i, img. by repeat split.
Qed.

(** X17. For a collection without undefined elements, holes or not, the
    album is made of exactly the slots that are done with an image, each
    once, under the caption of its card (the number of the slot, not its
    rank among the images kept). With no such slot the user is told so
    and no album is created; otherwise the album is created and
    downloaded, or the user is told that it failed. For a collection
    with an element that is undefined, the user is told that the album
    failed and none is created. In every case the handler ends with its
    busy flag cleared. *)
Theorem album_entries (album : Completion string) (view : State) :
  (Undefined ∉ generatedImages view ->
   collectDone 0 (generatedImages view) [] = Some (doneEntries 0 (generatedImages view))
   /\ (doneEntries 0 (generatedImages view) = [] ->
       (handleDownloadAlbum album view).1 = [Alert noImagesMessage])
   /\ (doneEntries 0 (generatedImages view) ≠ [] ->
       (handleDownloadAlbum album view).1
       = [CreateAlbumPage (doneEntries 0 (generatedImages view));
          match album with
          | Return albumDataUrl => Download albumDataUrl "perfect-shot-album.jpg"
          | Throw _ => Alert albumErrorMessage
          end]))
  /\ (Undefined ∈ generatedImages view ->
      (handleDownloadAlbum album view).1 = [Alert albumErrorMessage])
  /\ NoDup (doneEntries 0 (generatedImages view)).*1
  /\ (forall k u,
        (k, u) ∈ doneEntries 0 (generatedImages view) <->
        exists i image, generatedImages view !! i = Some (Value image)
                        /\ status image = StDone /\ url image = Some u /\ u ≠ ""
                        /\ k = captionOf i)
  /\ (handleDownloadAlbum album view).2 = false.
Proof.
  split; [|split; [|split; [apply doneEntries_NoDup|split; [|done]]]].
  - intros Hall.
    assert (collectDone 0 (generatedImages view) []
            = Some (doneEntries 0 (generatedImages view))) as E.
    { rewrite (collectDone_entries _ 0 [] Hall); [done|]. by intros k ?%elem_of_nil. }
    split; [exact E|]. unfold handleDownloadAlbum. rewrite E. cbn [fst snd].
    split; [by intros ->|]. intros Hne.
    destruct (doneEntries 0 (generatedImages view)); [done|]. by destruct album.
  - intros Hin. unfold handleDownloadAlbum.
    by rewrite (collectDone_undefined _ 0 [] Hin).
  - intros k u. rewrite doneEntries_elem. by setoid_rewrite Nat.add_0_l.
Qed.

Lemma album_entries_witness :
  (handleDownloadAlbum (Return "data:image/jpeg;base64,QUxC") shown).1
  = [CreateAlbumPage [("Result 1", "data:image/png;base64,R0VO");
                      ("Result 2", "data:image/png;base64,R0VO")];
     Download "data:image/jpeg;base64,QUxC" "perfect-shot-album.jpg"].
Proof.
  assert (Undefined ∉ generatedImages shown) as Hall.
  { intros H. repeat (apply elem_of_cons in H as [H|H]; [discriminate|]).
    by apply elem_of_nil in H. }
  destruct (proj1 (album_entries (Return "data:image/jpeg;base64,QUxC") shown) Hall)
    as (_ & _ & H).
  rewrite H; [reflexivity | discriminate].
Defined.

End Album.

Section AlbumPage.

(** X18. The page of the album has places for six cards, the number of
    results goes up to eight: the frames of the first six entries lie on
    the page, and the seventh and the eighth are placed below its lower
    edge, frame and centre of rotation alike, with room for the largest
    turn of the card in both cases. *)
Theorem album_has_six_places (index : nat) :
  index < 8 ->
  (index < 6 -> AlbumUtils.onPage index = true /\ AlbumUtils.belowPage index = false)
  /\ (6 <= index -> AlbumUtils.belowPage index = true /\ AlbumUtils.onPage index = false).
Proof.
  intros H.
  do 8 (destruct index as [|index];
        [split; intros ?; first [lia | split; vm_compute; reflexivity]|]).
  lia.
Qed.

Lemma album_has_six_places_witness :
  AlbumUtils.belowPage 6 = true /\ AlbumUtils.onPage 6 = false.
Proof.
  assert (6 < 8) as H8 by lia. assert (6 <= 6) as H6 by lia.
  exact (proj2 (album_has_six_places 6 H8) H6).
Defined.

End AlbumPage.

(** * The forms beside the page *)

Section Forms.

(** X19. Submitting the login form always ends with the busy flag
    cleared, and either closes the form or leaves a message that is not
    empty, unless the call rejected with null or undefined; the form is
    closed exactly when a call to the authentication was made and
    resolved. An account is only created with the email and
    the password of the form, the password being equal to its
    confirmation and at least 6 long; a password that differs from its
    confirmation is reported as such, whatever its length, and no call
    is made. *)
Theorem signup_is_validated (f : LoginModal.Form)
    (auth : LoginModal.AuthCall -> LoginModal.AuthResult) :
  LoginModal.loading (LoginModal.handleSubmit f auth) = false
  /\ (LoginModal.closed (LoginModal.handleSubmit f auth) = true <->
      exists c, LoginModal.call (LoginModal.handleSubmit f auth) = Some c
                /\ auth c = LoginModal.Resolved)
  /\ (LoginModal.closed (LoginModal.handleSubmit f auth) = false ->
      LoginModal.error (LoginModal.handleSubmit f auth) ≠ ""
      \/ exists c, LoginModal.call (LoginModal.handleSubmit f auth) = Some c
                   /\ auth c = LoginModal.RejectedNullish)
  /\ (forall e p,
        LoginModal.call (LoginModal.handleSubmit f auth) = Some (LoginModal.signup e p) ->
        LoginModal.isLogin f = false /\ e = LoginModal.email f
        /\ p = LoginModal.password f
        /\ LoginModal.password f = LoginModal.confirmPassword f
        /\ 6 <= String.length p)
  /\ (LoginModal.isLogin f = false ->
      LoginModal.password f ≠ LoginModal.confirmPassword f ->
      LoginModal.call (LoginModal.handleSubmit f auth) = None
      /\ LoginModal.error (LoginModal.handleSubmit f auth) = "Passwords do not match").
Proof.
  unfold LoginModal.handleSubmit.
  assert (forall c r,
            LoginModal.loading (LoginModal.afterCall c r) = false
            /\ (LoginModal.closed (LoginModal.afterCall c r) = true <-> r = LoginModal.Resolved)
            /\ (LoginModal.closed (LoginModal.afterCall c r) = false ->
                LoginModal.error (LoginModal.afterCall c r) ≠ "" \/ r = LoginModal.RejectedNullish)
            /\ LoginModal.call (LoginModal.afterCall c r) = Some c) as Hafter.
  { intros c [|[[|a m]|]|]; simpl; repeat split; try done; intros _; by (left + right). }
  assert (forall c,
            LoginModal.loading (LoginModal.afterCall c (auth c)) = false
            /\ (LoginModal.closed (LoginModal.afterCall c (auth c)) = true <->
                exists c', LoginModal.call (LoginModal.afterCall c (auth c)) = Some c'
                           /\ auth c' = LoginModal.Resolved)
            /\ (LoginModal.closed (LoginModal.afterCall c (auth c)) = false ->
                LoginModal.error (LoginModal.afterCall c (auth c)) ≠ ""
                \/ exists c', LoginModal.call (LoginModal.afterCall c (auth c)) = Some c'
                              /\ auth c' = LoginModal.RejectedNullish)
            /\ LoginModal.call (LoginModal.afterCall c (auth c)) = Some c) as Hcall.
  { intros c. destruct (Hafter c (auth c)) as (H1 & H2 & H3 & H4).
    rewrite H2, H4. repeat split; try done.
    - intros E. eauto.
    - by intros (c' & [= <-] & ?).
    - intros E. destruct (H3 E) as [?|?]; [by left | right; eauto]. }
  destruct (LoginModal.isLogin f) eqn:Hl.
  - destruct (Hcall (LoginModal.login (LoginModal.email f) (LoginModal.password f)))
      as (H1 & H2 & H3 & H4).
    split; [exact H1|]. split; [exact H2|]. split; [exact H3|]. split; [|done].
    intros e0 p0. rewrite H4. done.
  - destruct (decide (LoginModal.password f = LoginModal.confirmPassword f)) as [E|E].
    + rewrite (bool_decide_eq_true_2 _ E). cbn [negb].
      destruct (decide (String.length (LoginModal.password f) < 6)) as [Hs|Hs].
      * rewrite (bool_decide_eq_true_2 _ Hs). simpl.
        split; [done|]. split; [split; [done | by intros (c & ? & _)]|].
        split; [by left|]. split; done.
      * rewrite (bool_decide_eq_false_2 _ Hs).
        destruct (Hcall (LoginModal.signup (LoginModal.email f) (LoginModal.password f)))
          as (H1 & H2 & H3 & H4).
        split; [exact H1|]. split; [exact H2|]. split; [exact H3|]. split; [|done].
        intros e0 p0. rewrite H4. intros [= <- <-]. repeat split; try done. lia.
    + rewrite (bool_decide_eq_false_2 _ E). simpl.
      split; [done|]. split; [split; [done | by intros (c & ? & _)]|].
      split; [by left|]. split; done.
Qed.

(** X20. The index of the idea shown in the footer, which starts at 0
    and is advanced by the interval, is after [n] advances the remainder
    of [n] by the number of ideas: it always names an idea of the list
    and comes back to the first one every six advances. *)
Theorem footer_index_in_range (n : nat) :
  Footer.ticks n 0 = n mod 6
  /\ is_Some (Footer.REMIX_IDEAS !! Footer.ticks n 0)
  /\ Footer.ticks (n + 6) 0 = Footer.ticks n 0.
Proof.
  assert (forall k, Footer.ticks k 0 = k mod 6) as H.
  { induction k as [|k IH]; [done|]. cbn [Footer.ticks]. rewrite IH. unfold Footer.tick.
    change (length Footer.REMIX_IDEAS) with 6.
    rewrite Nat.Div0.add_mod_idemp_l. f_equal. lia. }
  split; [apply H|]. split.
  - apply lookup_lt_is_Some. rewrite H. change (length Footer.REMIX_IDEAS) with 6.
    apply Nat.mod_upper_bound. lia.
  - rewrite !H. replace (n + 6) with (n + 1 * 6) by lia. apply Nat.Div0.mod_add.
Qed.

(** X21. The key typed in the prompt is used without its leading and
    trailing white space, and not at all when nothing else is typed. A
    key that is used becomes the key of the client, is stored for the
    session and sets the flag; loading the page again with the key
    stored gives the same state. *)
Theorem api_key_is_trimmed_and_kept (localApiKey : string) (k : ApiKey.KeyState) :
  (trim localApiKey = "" -> ApiKey.promptSubmit localApiKey k = k)
  /\ (trim localApiKey ≠ "" ->
      ApiKey.promptSubmit localApiKey k
      = {| ApiKey.storedKey := Some (trim localApiKey);
           ApiKey.clientKey := Some (trim localApiKey);
           ApiKey.isApiKeySet := true |}
      /\ ApiKey.mount (ApiKey.storedKey (ApiKey.promptSubmit localApiKey k))
         = ApiKey.promptSubmit localApiKey k).
Proof.
  unfold ApiKey.promptSubmit. destruct (trim localApiKey) as [|c key]; [by split|].
  split; [done|]. intros _. by split.
Qed.

End Forms.
